(** * Play-count tracker: ingestion, gap filter and reference search

    A shallow embedding of the time-series core of the tracker
    ([update_counts.py], [convert_csv_to_json.py] and the polling loop of
    [app.py]) together with the properties its design document states.

    Conventions of the embedding.
    - A sample is the two-key dict [{'timestamp': ..., 'play_count': ...}];
      both values are text, as [save_json], [load_csv] and the fetchers
      write them.
    - Python exceptions are modelled by [option]: [None] is "raised".
    - The interpreter's library calls whose full behaviour is outside the
      repository ([datetime.strptime], [int] on text, the zone database
      behind [IST.localize]) are fields of the class [PyLib]; every function
      of the program is written against that interface.  A reference
      instance for the canonical record format is given in [RefLib].
    - The text of a scraped page is a list of code points.  What the
      scrapers need to know of a character ([str.isdigit], the decimal
      value [int] gives it, [str.isspace]) is fixed on the ASCII range
      and a field of the class [TextLib] above it, as is the limit [int]
      puts on the number of digits.
    - Time differences are integer microseconds, as Python stores them.
      [total_seconds()] is a float: the reference search compares the
      binary64 numbers that Python computes ([PyFloat]).  Where the
      program compares a difference with a whole number of seconds or
      minutes (the gap filter, on the whole seconds that the timestamp
      format gives, and the 15-minute test of the polling loop) the
      comparison of the floats agrees with that of the exact rationals,
      which the model uses there. *)

From Stdlib Require Import ZArith QArith Qabs Lia Lqa Ascii String.
From stdpp Require Import base option list sorting strings gmap pretty.

Local Open Scope string_scope.
Local Open Scope list_scope.
Local Open Scope Z_scope.

(** ** Python's [datetime] arithmetic *)

Module PyDatetime.

(** A civil date and time, the fields of a [datetime] object. *)
Record datetime : Type := mk_datetime {
  year : Z; month : Z; day : Z;
  hour : Z; minute : Z; second : Z; microsecond : Z
}.

Definition is_leap (y : Z) : bool :=
  (y mod 4 =? 0) && (negb (y mod 100 =? 0) || (y mod 400 =? 0)).

Definition days_before_year (y : Z) : Z :=
  let y' := y - 1 in y' * 365 + y' / 4 - y' / 100 + y' / 400.

Definition days_in_month (y m : Z) : Z :=
  if m =? 2 then (if is_leap y then 29 else 28)
  else if (m =? 4) || (m =? 6) || (m =? 9) || (m =? 11) then 30
  else 31.

(** [_DAYS_BEFORE_MONTH], the running sum of the non-leap month lengths. *)
Definition DAYS_BEFORE_MONTH (m : Z) : Z :=
  match m with
  | 1 => 0 | 2 => 31 | 3 => 59 | 4 => 90 | 5 => 120 | 6 => 151
  | 7 => 181 | 8 => 212 | 9 => 243 | 10 => 273 | 11 => 304 | 12 => 334
  | _ => 0
  end.

Definition days_before_month (y m : Z) : Z :=
  DAYS_BEFORE_MONTH m + (if (2 <? m) && is_leap y then 1 else 0).

Definition ymd2ord (y m d : Z) : Z :=
  days_before_year y + days_before_month y m + d.

Definition toordinal (t : datetime) : Z :=
  ymd2ord (year t) (month t) (day t).

(** A [timedelta], held as its total number of microseconds. *)
Definition timedelta : Type := Z.

Definition mk_timedelta (days seconds microseconds : Z) : timedelta :=
  (days * 86400 + seconds) * 1000000 + microseconds.

Definition hours_delta (h : Z) : timedelta := mk_timedelta 0 (h * 3600) 0.

(** The exact value of [timedelta.total_seconds()]; the float Python
    returns is [PyFloat.float_seconds]. *)
Definition total_seconds (d : timedelta) : Q := d # 1000000.

(** [a - b] on naive datetimes. *)
Definition dt_sub (a b : datetime) : timedelta :=
  let secs1 := second a + minute a * 60 + hour a * 3600 in
  let secs2 := second b + minute b * 60 + hour b * 3600 in
  mk_timedelta (toordinal a - toordinal b) (secs1 - secs2)
               (microsecond a - microsecond b).

(** Comparison of naive datetimes: the tuples of fields, lexicographically. *)
Definition dt_fields (t : datetime) : list Z :=
  [year t; month t; day t; hour t; minute t; second t; microsecond t].

Fixpoint lex_cmp (a b : list Z) : comparison :=
  match a, b with
  | [], [] => Eq
  | [], _ :: _ => Lt
  | _ :: _, [] => Gt
  | x :: a', y :: b' =>
      match x ?= y with
      | Eq => lex_cmp a' b'
      | c => c
      end
  end.

Definition dt_ltb (a b : datetime) : bool :=
  match lex_cmp (dt_fields a) (dt_fields b) with Lt => true | _ => false end.

(** An aware datetime: the civil fields and the UTC offset (seconds) of
    its [tzinfo]. *)
Record aware : Type := mk_aware { naive : datetime; utcoff : Z }.

(** [a - b] on aware datetimes: both sides are brought to UTC. *)
Definition aware_sub (a b : aware) : timedelta :=
  dt_sub (naive a) (naive b) + mk_timedelta 0 (utcoff b) 0
                             - mk_timedelta 0 (utcoff a) 0.

(** The calendar-hour bucket [(year, month, day, hour)]. *)
Definition hour_bucket (t : datetime) : Z * Z * Z * Z :=
  (year t, month t, day t, hour t).

#[export] Instance datetime_eq_dec : EqDecision datetime.
Proof. solve_decision. Defined.

End PyDatetime.
Export PyDatetime.

(** ** Python's [float] results of integer division *)

Module PyFloat.

(** The integer nearest to [p / q], for [0 <= p] and [0 < q]; a tie goes
    to the even neighbour. *)
Definition round_half_even (p q : Z) : Z :=
  let m := p / q in
  let r := p mod q in
  if 2 * r <? q then m
  else if q <? 2 * r then m + 1
  else if Z.even m then m else m + 1.

(** [n / d] on integers [0 <= n] and [0 < d]: the binary64 number nearest
    to the quotient, ties to even.  With [e] the exponent that puts the
    quotient, divided by [2 ^ e], in [[2^52, 2^53)], the result is that
    scaled quotient rounded to an integer, times [2 ^ e].  (Quotients of
    the normal range; none of the program's leaves it.) *)
Definition binary64 (n d : Z) : Q :=
  if n =? 0 then 0%Q
  else
    let k := Z.log2 n - Z.log2 d in
    let reaches := if 0 <=? k then d * 2 ^ k <=? n else d <=? n * 2 ^ (- k) in
    let e := if reaches then k - 52 else k - 53 in
    if 0 <=? e
    then inject_Z (round_half_even n (d * 2 ^ e) * 2 ^ e)
    else round_half_even (n * 2 ^ (- e)) d # Z.to_pos (2 ^ (- e)).

(** [n / d] for an integer [n] of either sign and [0 < d]. *)
Definition true_divide (n d : Z) : Q :=
  if n <? 0 then (- binary64 (- n) d)%Q else binary64 n d.

(** [timedelta.total_seconds()]: the microseconds divided by [10**6]. *)
Definition float_seconds (d : timedelta) : Q := true_divide d 1000000.

End PyFloat.
Export PyFloat.

(** ** Python's [str] methods used by the program *)

Module PyStr.

(** [s.startswith(p)]. *)
Fixpoint startswith (p s : string) : bool :=
  match p, s with
  | EmptyString, _ => true
  | String a p', String b s' => if Ascii.eqb a b then startswith p' s' else false
  | String _ _, EmptyString => false
  end.

(** [s.replace(old, new)] for a non-empty [old]: every occurrence, left
    to right, without overlap.  [skip] counts the characters of a matched
    occurrence that are still to be dropped. *)
Fixpoint replace_from (skip : nat) (old new s : string) : string :=
  match s with
  | EmptyString => EmptyString
  | String c s' =>
      match skip with
      | S k => replace_from k old new s'
      | O =>
          if startswith old s
          then new +:+ replace_from (Nat.pred (String.length old)) old new s'
          else String c (replace_from O old new s')
      end
  end.

Definition replace (old new s : string) : string := replace_from O old new s.

(** [c.isspace()] on the ASCII range. *)
Definition isspace (c : ascii) : bool :=
  let n := nat_of_ascii c in
  ((9 <=? n)%nat && (n <=? 13)%nat) || ((28 <=? n)%nat && (n <=? 32)%nat).

Fixpoint lstrip (s : string) : string :=
  match s with
  | String c s' => if isspace c then lstrip s' else s
  | EmptyString => EmptyString
  end.

Fixpoint rstrip (s : string) : string :=
  match s with
  | EmptyString => EmptyString
  | String c s' =>
      match rstrip s' with
      | EmptyString => if isspace c then EmptyString else String c EmptyString
      | r => String c r
      end
  end.

Definition strip (s : string) : string := rstrip (lstrip s).

(** Two decimal digits, zero padded ([%m], [%d], [%H], [%M], [%S]). *)
Definition digit (z : Z) : ascii := ascii_of_nat (48 + Z.to_nat (z mod 10)).

Definition pad2 (z : Z) : string :=
  String (digit (z / 10)) (String (digit z) EmptyString).

(** Four decimal digits, zero padded ([%Y]). *)
Definition pad4 (z : Z) : string :=
  String (digit (z / 1000)) (String (digit (z / 100)) (pad2 z)).

(** [str(n)] for an integer. *)
Definition str_of_int (n : Z) : string := pretty n.

End PyStr.
Export PyStr.

(** [t.strftime('%Y-%m-%d %H:%M:%S IST')], for the years 1000 to 9999 of a
    running clock. *)
Definition strftime_ist (t : datetime) : string :=
  pad4 (year t) +:+ "-" +:+ pad2 (month t) +:+ "-" +:+ pad2 (day t) +:+ " " +:+
  pad2 (hour t) +:+ ":" +:+ pad2 (minute t) +:+ ":" +:+ pad2 (second t) +:+ " IST".

(** ** The interpreter's library, as an interface *)

Class PyLib : Type := {
  (** [datetime.strptime(s, '%Y-%m-%d %H:%M:%S')]; [None] when it raises. *)
  strptime : string -> option datetime;
  (** [int(s)] on text; [None] when it raises. *)
  py_int : string -> option Z;
  (** The UTC offset, in seconds, that [IST.localize] gives a civil time. *)
  ist_utcoffset : datetime -> Z
}.

(** The [strptime] call every parser of the program makes:
    [datetime.strptime(ts.replace(' IST','').strip(), '%Y-%m-%d %H:%M:%S')]. *)
Definition parse_civil `{PyLib} (ts : string) : option datetime :=
  strptime (strip (replace " IST" "" ts)).

(** ** Samples *)

Record entry : Type := mk_entry { timestamp : string; play_count : string }.

#[export] Instance entry_eq_dec : EqDecision entry.
Proof. solve_decision. Defined.

(** ** The history files *)

(** What a path of the working directory holds: a JSON list of samples, or
    bytes that [json.load] rejects. *)
Inductive file : Type :=
| Unreadable
| JsonDoc (data : list entry).

Abbreviation files := (gmap string file).

(** ** update_counts.py *)

Module UpdateCounts.
Section WithLib.
Context `{PyLib}.

Record song_meta : Type := mk_meta { json_file : string; url : string }.

Definition SONGS : list (string * song_meta) :=
  [ ("firestorm",
     mk_meta "firestorm_history.json"
             "https://www.jiosaavn.com/album/firestorm-from-they-call-him-og/yHG4eDZauLQ_");
    ("hungry_cheetah",
     mk_meta "hungry_cheetah_history.json"
             "https://www.jiosaavn.com/song/hungry-cheetah-from-they-call-him-og/OgQvaDxEbwE") ].

Definition safe_parse_ts (ts : string) : option datetime := parse_civil ts.

Definition load_json (path : string) (fs : files) : list entry :=
  match fs !! path with
  | None => []
  | Some Unreadable => []
  | Some (JsonDoc data) => data
  end.

(** [os.replace(src, dst)]. *)
Definition os_replace (src dst : string) (fs : files) : files :=
  match fs !! src with
  | Some c => <[dst := c]> (delete src fs)
  | None => fs
  end.

Definition save_json (path : string) (data : list entry) (fs : files) : files :=
  let tmp := path +:+ ".tmp" in
  let fs1 := <[tmp := JsonDoc data]> fs in
  os_replace tmp path fs1.

Definition should_append_hourly (existing : list entry) (now_dt : datetime) : bool :=
  match last existing with
  | None => true
  | Some l =>
      match parse_civil (timestamp l) with
      | None => true
      | Some last_dt =>
          negb (bool_decide (hour_bucket now_dt = hour_bucket last_dt))
      end
  end.

(** The guard of lines 110-116: [True] when the function returns early
    with "decreasing count"; an exception of [int] is swallowed. *)
Definition decreasing (data : list entry) (count : Z) : bool :=
  match last data with
  | None => false
  | Some l =>
      match py_int (play_count l) with
      | Some v => count <? v
      | None => false
      end
  end.

Definition new_entry (now_dt : datetime) (count : Z) : entry :=
  {| timestamp := strftime_ist now_dt; play_count := str_of_int count |}.

(** [update_song]: [fetched] is what [fetch_play_count(meta['url'])]
    returned and [now] what [datetime.now(IST)] returned. *)
Definition update_song (meta : song_meta) (fetched : option Z) (now : aware)
    (fs : files) : bool * files :=
  let data := load_json (json_file meta) fs in
  match fetched with
  | None => (false, fs)
  | Some count =>
      if decreasing data count then (false, fs)
      else
        let now_dt := naive now in
        if should_append_hourly data now_dt then
          let data' := data ++ [new_entry now_dt count] in
          (true, save_json (json_file meta) data' fs)
        else (false, fs)
  end.

(** [float('inf')] or a finite difference in seconds. *)
Definition below (diff : Q) (min_diff : option Q) : bool :=
  match min_diff with
  | None => true
  | Some m => negb (Qle_bool m diff)
  end.

Definition localize (t : datetime) : aware :=
  {| naive := t; utcoff := ist_utcoffset t |}.

(** [abs((t - target_time).total_seconds())] where
    [target_time = now - timedelta(hours=hours_back)]; subtracting the
    target is subtracting [now] and adding the look-back.  The result is
    a float. *)
Definition reference_diff (now : aware) (hours_back : Z) (t : datetime) : Q :=
  Qabs (float_seconds (aware_sub (localize t) now + hours_delta hours_back)).

Definition reference_step (now : aware) (hours_back : Z)
    (acc : option entry * option Q) (e : entry) : option entry * option Q :=
  match safe_parse_ts (timestamp e) with
  | None => acc
  | Some t =>
      let diff := reference_diff now hours_back t in
      if below diff (snd acc) then (Some e, Some diff) else acc
  end.

Definition find_reference (now : aware) (entries : list entry) (hours_back : Z)
    : option entry :=
  fst (fold_left (reference_step now hours_back) entries (None, None)).

Record song_stats : Type := mk_stats {
  current : Z;
  previous_hour : option Z;
  hour_increase : option Z;
  previous_24h : option Z;
  day_increase : option Z;
  entries : nat
}.

(** What the body of the loop of [build_summary] does for one song. *)
Inductive summary_result : Type :=
| Raises
| Omitted
| Stats (s : song_stats).

(** [curr_count - int(prev['play_count'])] under [try ... except: pass]. *)
Definition increase (curr_count : Z) (prev : option entry) : option Z :=
  match prev with
  | None => None
  | Some p =>
      match py_int (play_count p) with
      | Some v => Some (curr_count - v)
      | None => None
      end
  end.

(** [now_h] and [now_d] are the clock readings of the two calls of
    [find_reference]. *)
Definition song_summary (now_h now_d : aware) (data : list entry) : summary_result :=
  match last data with
  | None => Omitted
  | Some cur =>
      match py_int (play_count cur) with
      | None => Raises
      | Some curr_count =>
          let prev_hour := find_reference now_h data 1 in
          let prev_day := find_reference now_d data 24 in
          let hour_inc := increase curr_count prev_hour in
          let day_inc := increase curr_count prev_day in
          let field (prev : option entry) : option (option Z) :=
            match prev with
            | None => Some None
            | Some p => match py_int (play_count p) with
                        | Some v => Some (Some v)
                        | None => None
                        end
            end in
          match field prev_hour, field prev_day with
          | Some ph, Some pd =>
              Stats {| current := curr_count;
                       previous_hour := ph; hour_increase := hour_inc;
                       previous_24h := pd; day_increase := day_inc;
                       entries := length data |}
          | _, _ => Raises
          end
      end
  end.

Record summary : Type := mk_summary {
  generated_at : string;
  granularity : string;
  songs : list (string * song_stats)
}.

(** [build_summary]: the document dumped to [stats_summary.json], or
    [None] when a song raises.  [clock] gives each song its two
    readings. *)
Fixpoint summarise (clock : string -> aware * aware) (fs : files)
    (catalog : list (string * song_meta)) : option (list (string * song_stats)) :=
  match catalog with
  | [] => Some []
  | (sid, meta) :: rest =>
      let '(now_h, now_d) := clock sid in
      match song_summary now_h now_d (load_json (json_file meta) fs) with
      | Raises => None
      | Omitted => summarise clock fs rest
      | Stats s =>
          match summarise clock fs rest with
          | Some l => Some ((sid, s) :: l)
          | None => None
          end
      end
  end.

Definition build_summary (now : aware) (clock : string -> aware * aware)
    (fs : files) : option summary :=
  match summarise clock fs SONGS with
  | Some l => Some {| generated_at := strftime_ist (naive now);
                      granularity := "hourly"; songs := l |}
  | None => None
  end.

End WithLib.
End UpdateCounts.

(** ** convert_csv_to_json.py *)

Module Convert.
Section WithLib.
Context `{PyLib}.

Definition parse_ts (ts : string) : option datetime := parse_civil ts.

(** [sorted(xs, key=...)] is stable and compares keys with [<] only;
    a stable insertion sort on the decorated list computes the same
    list. *)
Fixpoint insert_by_key {A : Type} (x : datetime * A) (l : list (datetime * A))
    : list (datetime * A) :=
  match l with
  | [] => [x]
  | y :: l' => if dt_ltb (fst y) (fst x) then y :: insert_by_key x l' else x :: l
  end.

Fixpoint sort_by_key {A : Type} (l : list (datetime * A)) : list (datetime * A) :=
  match l with
  | [] => []
  | x :: l' => insert_by_key x (sort_by_key l')
  end.

(** The keys are computed for every element first; one failing key makes
    the whole call raise. *)
Definition sorted {A : Type} (key : A -> option datetime) (l : list A)
    : option (list A) :=
  keys ← mapM key l;
  Some ((sort_by_key (zip keys l)).*2).

(** The state of the loop: [filtered] and [last_kept_time]. *)
Definition scan_state : Type := list entry * option datetime.

(** [diff >= gap_minutes - 5], with
    [diff = (current_time - last_kept_time).total_seconds() / 60]. *)
Definition far_enough (gap_minutes : Z) (current_time last_kept_time : datetime) : bool :=
  let diff := (total_seconds (dt_sub current_time last_kept_time) / inject_Z 60)%Q in
  Qle_bool (inject_Z (gap_minutes - 5)) diff.

Definition scan_step (gap_minutes : Z) (st : scan_state) (e : entry)
    : option scan_state :=
  let '(filtered, last_kept_time) := st in
  current_time ← parse_ts (timestamp e);
  match last_kept_time with
  | None => Some (filtered ++ [e], Some current_time)
  | Some lk =>
      if far_enough gap_minutes current_time lk
      then Some (filtered ++ [e], Some current_time)
      else Some (filtered, last_kept_time)
  end.

Fixpoint scan (gap_minutes : Z) (l : list entry) (st : scan_state)
    : option scan_state :=
  match l with
  | [] => Some st
  | e :: l' => st' ← scan_step gap_minutes st e; scan gap_minutes l' st'
  end.

(** The closing [if]: the newest sample is appended when the last kept
    one carries another [timestamp] text. *)
Definition ensure_newest (filtered entries_sorted : list entry) : list entry :=
  match last filtered, last entries_sorted with
  | Some f, Some l =>
      if bool_decide (timestamp f ≠ timestamp l) then filtered ++ [l] else filtered
  | _, _ => filtered
  end.

Definition filter_hour_gaps (entries : list entry) (gap_minutes : Z)
    : option (list entry) :=
  match entries with
  | [] => Some []
  | _ =>
      entries_sorted ← sorted (λ e, parse_ts (timestamp e)) entries;
      st ← scan gap_minutes entries_sorted ([], None);
      Some (ensure_newest (fst st) entries_sorted)
  end.

End WithLib.
End Convert.

(** ** app.py: the polling loop *)

Module App.

(** One tracked song: [song['entries']] and the rows of its CSV file. *)
Record song_state : Type := mk_song {
  song_entries : list entry;
  csv_rows : list entry
}.

Definition csv_entry (play_count : string) (current_time : aware) : entry :=
  {| timestamp := strftime_ist (naive current_time); play_count := play_count |}.

(** The body of the [for] loop of [update_play_count] for one song;
    [fetched] is the digit text (or [None]) that [fetch_play_count]
    returned.  The entries are those the running process appended, whose
    [play_count] is such a text (the entries read from the CSV file at
    start-up carry numbers, which no text equals), and [csv_rows] are
    the rows written by calls of [save_entry_to_csv] that return; when
    that call raises, the thread of the loop ends with the entry in
    memory alone. *)
Definition ingest (fetched : option string) (current_time : aware)
    (song : song_state) : song_state :=
  match fetched with
  | None => song
  | Some "" => song
  | Some pc =>
      let is_new_entry :=
        match last (song_entries song) with
        | None => true
        | Some last_entry => bool_decide (play_count last_entry ≠ pc)
        end in
      if is_new_entry then
        let e := csv_entry pc current_time in
        {| song_entries := song_entries song ++ [e];
           csv_rows := csv_rows song ++ [e] |}
      else song
  end.

End App.

(** ** A reference library for the canonical record format *)

Module RefLib.

Definition digit_val (c : ascii) : option Z :=
  let n := nat_of_ascii c in
  if ((48 <=? n) && (n <=? 57))%nat then Some (Z.of_nat n - 48) else None.

Fixpoint digits_val (acc : Z) (s : string) : option Z :=
  match s with
  | EmptyString => Some acc
  | String c s' => d ← digit_val c; digits_val (acc * 10 + d) s'
  end.

Definition number (s : string) : option Z :=
  match s with
  | EmptyString => None
  | _ => digits_val 0 s
  end.

Definition field (s : string) (off len : nat) : option Z :=
  number (substring off len s).

(** [strptime] on the fixed-width text [YYYY-MM-DD HH:MM:SS]. *)
Definition strptime_ref (s : string) : option datetime :=
  if negb (bool_decide (String.length s = 19%nat)) then None
  else if negb (bool_decide (substring 4 1 s = "-" ∧ substring 7 1 s = "-" ∧
                             substring 10 1 s = " " ∧ substring 13 1 s = ":" ∧
                             substring 16 1 s = ":")) then None
  else
    y ← field s 0 4; m ← field s 5 2; d ← field s 8 2;
    hh ← field s 11 2; mm ← field s 14 2; ss ← field s 17 2;
    if (1 <=? y) && (1 <=? m) && (m <=? 12) && (1 <=? d) && (d <=? days_in_month y m)
       && (hh <=? 23) && (mm <=? 59) && (ss <=? 59)
    then Some (mk_datetime y m d hh mm ss 0)
    else None.

(** [int] on an optional sign followed by decimal digits. *)
Definition int_ref (s : string) : option Z :=
  match s with
  | String "-" s' => Z.opp <$> number s'
  | String "+" s' => number s'
  | _ => number s
  end.

(** India Standard Time, UTC+05:30. *)
Definition ist_offset (_ : datetime) : Z := 19800.

#[export] Instance ref_lib : PyLib :=
  {| strptime := strptime_ref; py_int := int_ref; ist_utcoffset := ist_offset |}.

End RefLib.

(** ** The ingestion policy, as the design document words it *)

Module Policy.

Inductive decision : Type :=
| FetchFailed
| DecreasingValueRejected
| SameBucketSkipped
| Accept.

(** The decision order of the design document, on the last stored sample
    (its civil time and its value), the fetched value and the current
    time. *)
Definition decide_ingest (last_sample : option (datetime * Z))
    (new_value : option Z) (now : datetime) : decision :=
  match new_value with
  | None => FetchFailed
  | Some v =>
      match last_sample with
      | Some (t, lv) =>
          if v <? lv then DecreasingValueRejected
          else if bool_decide (hour_bucket t = hour_bucket now) then SameBucketSkipped
          else Accept
      | None => Accept
      end
  end.

End Policy.

(** ** Distance in time, as the design document words it *)

Module TimeSpec.

(** The instant of an aware datetime: the microseconds from
    0001-01-01 00:00 UTC to it. *)
Definition instant (a : aware) : Z :=
  let t := naive a in
  ((((toordinal t - 1) * 24 + hour t) * 60 + minute t) * 60 + second t
     - utcoff a) * 1000000
  + microsecond t.

(** "Absolute time difference to [now − duration]", in microseconds; the
    duration is given in hours. *)
Definition distance (now : aware) (hours_back : Z) (t : aware) : Z :=
  Z.abs (instant t - (instant now - hours_back * 3600 * 1000000)).

(** 2^33 seconds, some 272 years, in microseconds. *)
Definition FLOAT_RANGE : Z := 8589934592000000.

End TimeSpec.

(** ** Views of a stored series *)

Section Views.
Context `{PyLib}.

(** The integer a stored sample carries, when [int] accepts its text. *)
Definition int_value (e : entry) : option Z := py_int (play_count e).

(** The civil time a stored sample carries, when its text parses. *)
Definition civil_time (e : entry) : option datetime := parse_civil (timestamp e).

(** The last stored sample as the policy sees it. *)
Definition last_sample (data : list entry) : option (datetime * Z) :=
  l ← last data; t ← civil_time l; v ← int_value l; Some (t, v).

(** Every stored value is an integer and [value[i] <= value[i+1]]. *)
Definition series_monotone (data : list entry) : Prop :=
  Forall (λ e, is_Some (int_value e)) data ∧
  ∀ (i : nat) a b va vb,
    data !! i = Some a → data !! S i = Some b →
    int_value a = Some va → int_value b = Some vb → va <= vb.

(** Feeding a sequence of fetch results and clock readings to
    [update_song] for one song. *)
Fixpoint run_updates (meta : UpdateCounts.song_meta)
    (feed : list (option Z * aware)) (fs : files) : files :=
  match feed with
  | [] => fs
  | (fetched, now) :: rest =>
      run_updates meta rest (snd (UpdateCounts.update_song meta fetched now fs))
  end.

End Views.

(** Feeding a sequence of fetch results to the polling loop of [app.py]. *)
Fixpoint run_ingest (feed : list (option string * aware)) (song : App.song_state)
    : App.song_state :=
  match feed with
  | [] => song
  | (fetched, now) :: rest => run_ingest rest (App.ingest fetched now song)
  end.

(** ** Readings of the design document that the code does not meet

    Each is stated here as the document words it; the properties section
    refutes it on a concrete input and proves what holds instead. *)

Module Claimed.
Section WithLib.
Context `{PyLib}.
Import UpdateCounts.

(** "An implementation must not overwrite existing data based on a
    failed read." *)
Definition failed_read_keeps_file : Prop :=
  ∀ (meta : song_meta) (count : Z) (now : aware) (fs : files),
    fs !! json_file meta = Some Unreadable →
    snd (update_song meta (Some count) now fs) !! json_file meta
      = fs !! json_file meta.

(** "If the series has fewer than 2 samples, all derived deltas ... must
    be signaled as such, never silently fabricated." *)
Definition short_series_has_no_increase : Prop :=
  ∀ (now_h now_d : aware) (data : list entry) (s : song_stats),
    (length data < 2)%nat →
    song_summary now_h now_d data = Stats s →
    hour_increase s = None ∧ day_increase s = None.

(** "For all accepted sample sequences, value[i] >= value[i-1]", on the
    polling loop of [app.py]. *)
Definition poller_values_monotone : Prop :=
  ∀ (feed : list (option string * aware)),
    series_monotone (App.song_entries (run_ingest feed (App.mk_song [] []))).

(** "Feeding two fetch results with the same calendar hour and any values
    never yields two stored samples for that hour", on the polling loop
    of [app.py]. *)
Definition poller_one_sample_per_hour : Prop :=
  ∀ (p1 p2 : option string) (t1 t2 : aware) (song : App.song_state),
    hour_bucket (naive t1) = hour_bucket (naive t2) →
    (length (App.song_entries (App.ingest p2 t2 (App.ingest p1 t1 song)))
     <= S (length (App.song_entries song)))%nat.

(** "Find the stored sample whose timestamp is closest (by absolute time
    difference ...) to now − duration." *)
Definition reference_is_closest : Prop :=
  ∀ (now : aware) (entries : list entry) (hours_back : Z) (e e' : entry)
    (t t' : datetime),
    find_reference now entries hours_back = Some e →
    civil_time e = Some t →
    e' ∈ entries → civil_time e' = Some t' →
    TimeSpec.distance now hours_back (localize t)
      <= TimeSpec.distance now hours_back (localize t').

(** "The last sample of the input series is always present in the output
    series." *)
Definition gap_filter_keeps_newest : Prop :=
  ∀ (entries entries_sorted out : list entry) (newest : entry),
    Convert.sorted (λ e, Convert.parse_ts (timestamp e)) entries = Some entries_sorted →
    last entries_sorted = Some newest →
    Convert.filter_hour_gaps entries 60 = Some out →
    newest ∈ out.

End WithLib.
End Claimed.

(** ** Sample data *)

Module Samples.
Import UpdateCounts.

Definition meta0 : song_meta := mk_meta "firestorm_history.json" "u".

Definition at_ (h m s : Z) : aware :=
  mk_aware (mk_datetime 2024 1 1 h m s 0) 19800.

Definition s_1000 : entry := mk_entry "2024-01-01 10:00:00 IST" "500".
Definition s_1110 : entry := mk_entry "2024-01-01 11:10:00 IST" "620".
Definition s_bad_count : entry := mk_entry "2024-01-01 10:00:00 IST" "n/a".
Definition s_bad_time : entry := mk_entry "01/01/2024 10:00" "500".

Definition store (data : list entry) : files :=
  {[ "firestorm_history.json" := JsonDoc data ]}.

Definition corrupt_store : files :=
  {[ "firestorm_history.json" := Unreadable ]}.

Definition s_0900 : entry := mk_entry "2024-01-01 09:00:00 IST" "100".

(** A clock reading of the year 2600 and two samples 2^34 seconds and a
    fraction to either side of the reading minus one hour: [s_early]
    lies 2^34 + 0.500001 seconds before it, [s_late] 2^34 + 0.499999
    seconds after it. *)
Definition far_clock : aware :=
  mk_aware (mk_datetime 2600 1 1 1 0 0 500001) 19800.
Definition s_early : entry := mk_entry "2055-08-04 22:06:56 IST" "100".
Definition s_late : entry := mk_entry "3144-05-30 01:53:05 IST" "200".

Definition s_dup_a : entry := mk_entry "2024-01-01 10:00:00 IST" "500".
Definition s_dup_b : entry := mk_entry "2024-01-01 10:00:00 IST" "501".

End Samples.

(** ** The loop invariant of the reference search *)

Section ReferenceInvariant.
Context `{PyLib}.
Import UpdateCounts.

(** What the loop of [find_reference] holds after a prefix [l] of the
    entries. *)
Definition reference_inv (now : aware) (hours_back : Z) (l : list entry)
    (acc : option entry * option Q) : Prop :=
  match acc with
  | (None, None) => Forall (λ e, civil_time e = None) l
  | (Some e, Some m) =>
      ∃ l1 l2 t,
        l = l1 ++ e :: l2 ∧ civil_time e = Some t ∧
        m = reference_diff now hours_back t ∧
        (∀ e' t', e' ∈ l1 → civil_time e' = Some t' →
           (reference_diff now hours_back t < reference_diff now hours_back t')%Q) ∧
        (∀ e' t', e' ∈ l2 → civil_time e' = Some t' →
           (reference_diff now hours_back t <= reference_diff now hours_back t')%Q)
  | _ => False
  end.

End ReferenceInvariant.

(** ** The gap filter, as the design document words it *)

Module GapSpec.

(** "The elapsed time since the last kept sample is at least
    threshold − tolerance", the tolerance being 5 minutes; on exact
    microseconds. *)
Definition spaced (gap_minutes : Z) (t last_kept : datetime) : bool :=
  (gap_minutes - 5) * 60 * 1000000 <=? dt_sub t last_kept.

(** "Always keep the first sample; for each subsequent sample, keep it
    only if" it is [spaced] from the last kept one.  The samples come
    with their parsed times. *)
Fixpoint keep_from (gap_minutes : Z) (last_kept : option datetime)
    (l : list (datetime * entry)) : list (datetime * entry) :=
  match l with
  | [] => []
  | p :: l' =>
      match last_kept with
      | None => p :: keep_from gap_minutes (Some p.1) l'
      | Some k =>
          if spaced gap_minutes p.1 k
          then p :: keep_from gap_minutes (Some p.1) l'
          else keep_from gap_minutes last_kept l'
      end
  end.

(** The time of the last kept sample after [kept] was kept. *)
Definition last_key (last_kept : option datetime)
    (kept : list (datetime * entry)) : option datetime :=
  match last kept with
  | Some p => Some p.1
  | None => last_kept
  end.

(** Ascending order of time: the later sample is not earlier. *)
Definition key_le (x y : datetime * entry) : Prop := dt_ltb y.1 x.1 = false.

Section WithLib.
Context `{PyLib}.

(** A sample paired with the time its timestamp parses to. *)
Definition decorated (p : datetime * entry) : Prop := civil_time p.2 = Some p.1.

(** [srt] is the series in ascending order of time. *)
Definition sorted_view (entries : list entry) (srt : list (datetime * entry))
    : Prop :=
  srt.*2 ≡ₚ entries ∧ Forall decorated srt ∧ StronglySorted key_le srt.

End WithLib.

End GapSpec.

(** ** Python's [str] as the scrapers use it *)

Module PyText.

(** A [str]: its code points. *)
Definition str : Type := list N.

(** The text of an ASCII literal of the program. *)
Definition codes (s : string) : str := N_of_ascii <$> list_ascii_of_string s.

(** What the Unicode database says of a character: no digit, a decimal
    digit of some script with its value ([٣] is 3), or a digit that is no
    decimal (the superscript [²]). *)
Inductive digit_kind : Type :=
| NoDigit
| DecimalDigit (v : N)
| OtherDigit.

(** The part of the interpreter the scrapers depend on. *)
Class TextLib : Type := {
  (** The digit property of a character above the ASCII range. *)
  digit_kind_above_ascii : N -> digit_kind;
  (** [c.isspace()] above the ASCII range. *)
  isspace_above_ascii : N -> bool;
  (** [sys.get_int_max_str_digits()]: 4300 unless configured, 0 for no
      limit. *)
  int_max_str_digits : nat
}.

Section WithText.
Context `{TextLib}.

Definition digit_kind_of (c : N) : digit_kind :=
  if (c <? 128)%N then
    if ((48 <=? c) && (c <=? 57))%N then DecimalDigit (c - 48) else NoDigit
  else digit_kind_above_ascii c.

(** [c.isdigit()]: decimal digits and the other digits alike. *)
Definition isdigit (c : N) : bool :=
  match digit_kind_of c with
  | NoDigit => false
  | _ => true
  end.

(** [c.isspace()]. *)
Definition isspace (c : N) : bool :=
  if (c <? 128)%N then
    ((9 <=? c) && (c <=? 13))%N || ((28 <=? c) && (c <=? 32))%N
  else isspace_above_ascii c.

Fixpoint lstrip (s : str) : str :=
  match s with
  | c :: s' => if isspace c then lstrip s' else s
  | [] => []
  end.

Fixpoint rstrip (s : str) : str :=
  match s with
  | [] => []
  | c :: s' =>
      match rstrip s' with
      | [] => if isspace c then [] else [c]
      | r => c :: r
      end
  end.

Definition strip (s : str) : str := rstrip (lstrip s).

(** [''.join(ch for ch in text if ch.isdigit())], and
    [''.join(filter(str.isdigit, text))]. *)
Fixpoint digits_of (s : str) : str :=
  match s with
  | [] => []
  | c :: s' => if isdigit c then c :: digits_of s' else digits_of s'
  end.

(** The value of a text of decimal digits, leading zeros allowed; [None]
    at a character that is no decimal digit. *)
Fixpoint decimal_value (acc : Z) (s : str) : option Z :=
  match s with
  | [] => Some acc
  | c :: s' =>
      match digit_kind_of c with
      | DecimalDigit v => decimal_value (acc * 10 + Z.of_N v) s'
      | _ => None
      end
  end.

(** Whether a text of [n] digits is beyond the limit of [int]. *)
Definition over_limit (n : nat) : bool :=
  negb (int_max_str_digits =? 0)%nat && (int_max_str_digits <? n)%nat.

(** [int(digits)] on a non-empty text of [isdigit] characters; [None]
    when it raises: on a digit that is no decimal and on a text longer
    than the limit. *)
Definition int_of_digits (digits : str) : option Z :=
  if over_limit (length digits) then None else decimal_value 0 digits.

End WithText.

(** [s.startswith(p)]. *)
Fixpoint startswith (p s : str) : bool :=
  match p, s with
  | [], _ => true
  | a :: p', b :: s' => if (a =? b)%N then startswith p' s' else false
  | _ :: _, [] => false
  end.

(** [sub in s], for a non-empty [sub]. *)
Fixpoint contains (sub s : str) : bool :=
  match s with
  | [] => false
  | _ :: s' => startswith sub s || contains sub s'
  end.

(** [s.split(sub)[0]]: what stands before the first [sub], all of [s]
    when there is none. *)
Fixpoint before (sub s : str) : str :=
  match s with
  | [] => []
  | c :: s' => if startswith sub s then [] else c :: before sub s'
  end.

End PyText.

(** ** update_counts.py: the scraper *)

Module Scrape.
Export PyText.

Section WithText.
Context `{TextLib}.

(** [parse_int_digits]: the outer [None] is an exception of [int], the
    inner one the [None] returned for a text without digits. *)
Definition parse_int_digits (text : str) : option (option Z) :=
  match digits_of text with
  | [] => Some None
  | digits =>
      match int_of_digits digits with
      | Some v => Some (Some v)
      | None => None
      end
  end.

(** What the scraper asks of a parsed page: the text of the first [p] and
    of the first [span] with a given [class], and the page's stripped
    strings in document order. *)
Record page : Type := mk_page {
  find_p : string -> option str;
  find_span : string -> option str;
  stripped_strings : list str
}.

(** One attempt: the request, the status check or the parser raised, or a
    page came back. *)
Inductive response : Type :=
| Raised
| Got (pg : page).

Definition PLAY_P_TAG_CLASSES : list string :=
  [ "u-centi u-deci@lg u-color-js-gray u-ellipsis@lg u-margin-bottom-tiny@sm";
    "u-centi u-deci@lg u-color-js-gray" ].

Definition ALBUM_SPAN_CLASS : string := "u-centi u-hidden@lg".

Definition MAX_RETRIES : nat := 2.
Definition BACKOFF_SECONDS : Z := 3.

(** [parse_int_digits(text.split('Play')[0])] under [if 'Play' in text];
    a text without ['Play'] is passed over. *)
Definition count_in (text : str) : option (option Z) :=
  if contains (codes "Play") text
  then parse_int_digits (before (codes "Play") text)
  else Some None.

(** The first text of the list that yields a count; [None] when [int]
    raises on the way. *)
Fixpoint first_count (texts : list str) : option (option Z) :=
  match texts with
  | [] => Some None
  | t :: rest =>
      match count_in t with
      | None => None
      | Some (Some v) => Some (Some v)
      | Some None => first_count rest
      end
  end.

(** The body of the [try] once the page is parsed: the value returned,
    or [None] when it raises. *)
Definition scan_page (pg : page) : option (option Z) :=
  match first_count (omap (find_p pg) PLAY_P_TAG_CLASSES) with
  | None => None
  | Some (Some v) => Some (Some v)
  | Some None =>
      match from_option count_in (Some None) (find_span pg ALBUM_SPAN_CLASS) with
      | None => None
      | Some (Some v) => Some (Some v)
      | Some None => first_count (stripped_strings pg)
      end
  end.

(** The whole [try] block of one attempt. *)
Definition try_block (r : response) : option (option Z) :=
  match r with
  | Raised => None
  | Got pg => scan_page pg
  end.

(** What a call of [fetch_play_count] did: its return value, the number of
    requests it made and the seconds it slept. *)
Record fetched : Type := mk_fetched {
  result : option Z;
  requests : nat;
  slept : Z
}.

(** The [for attempt in range(...)] loop from attempt number [attempt] on,
    [todo] attempts being left; [net] gives the response to each attempt. *)
Fixpoint attempts_from (max_retries : nat) (backoff : Z) (net : nat -> response)
    (attempt todo : nat) (made : nat) (waited : Z) : fetched :=
  match todo with
  | O => mk_fetched None made waited
  | S todo' =>
      match try_block (net attempt) with
      | Some val => mk_fetched val (S made) waited
      | None =>
          let waited' :=
            if (attempt <=? max_retries)%nat
            then waited + backoff * Z.of_nat attempt else waited in
          attempts_from max_retries backoff net (S attempt) todo' (S made) waited'
      end
  end.

Definition fetch_play_count (net : nat -> response) : fetched :=
  attempts_from MAX_RETRIES BACKOFF_SECONDS net 1 (MAX_RETRIES + 1) 0 0.

End WithText.

End Scrape.

(** ** update_counts.py: the entry point *)

Module Main.
Section WithLib.
Context `{PyLib} `{PyText.TextLib}.
Import UpdateCounts.

(** The loop of [main] over a catalog: [net] answers the requests for each
    url and [clock] is the reading of the clock for each song. *)
Fixpoint update_all (net : string -> nat -> Scrape.response)
    (clock : string -> aware) (catalog : list (string * song_meta))
    (changed : bool) (fs : files) : bool * files :=
  match catalog with
  | [] => (changed, fs)
  | (sid, meta) :: rest =>
      let r := update_song meta
                 (Scrape.result (Scrape.fetch_play_count (net (url meta))))
                 (clock sid) fs in
      update_all net clock rest (if r.1 then true else changed) r.2
  end.

(** [main]: whether a song was updated, the files afterwards and the
    summary ([None] when [build_summary] raises). *)
Definition main (net : string -> nat -> Scrape.response) (clock : string -> aware)
    (now : aware) (summary_clock : string -> aware * aware) (fs : files)
    : bool * files * option summary :=
  let r := update_all net clock SONGS false fs in
  (r.1, r.2, build_summary now summary_clock r.2).

End WithLib.
End Main.

(** ** app.py: what the page shows *)

Module AppDisplay.

(** The digits of a non-negative number in groups of three, as [{:,}]
    writes them: a comma after every digit that is followed by a positive
    multiple of three digits. *)
Fixpoint group_digits (s : string) : string :=
  match s with
  | EmptyString => EmptyString
  | String c s' =>
      let n := String.length s' in
      if (negb (n =? 0) && (n mod 3 =? 0))%nat
      then String c (String "," (group_digits s'))
      else String c (group_digits s')
  end.

(** ["{:,}".format(n)] for an integer [n]. *)
Definition format_commas (n : Z) : string :=
  if n <? 0 then "-" +:+ group_digits (str_of_int (- n))
  else group_digits (str_of_int n).

Section WithLib.
Context `{PyLib}.

(** [format_number]: a value [int] rejects is shown as it is. *)
Definition format_number (value : string) : string :=
  match py_int value with
  | Some n => format_commas n
  | None => value
  end.

End WithLib.

(** The sign and size of a change, as [calculate_changes] writes it. *)
Definition change_str (change : Z) : string :=
  if 0 <? change then "+" +:+ str_of_int change
  else if change <? 0 then str_of_int change
  else "0".

Section WithLib.
Context `{PyLib}.

(** The body of the loop of [calculate_changes] for one pair of
    neighbours; [int] is applied to the current sample first. *)
Definition change_of (previous current : entry) : option (entry * string) :=
  c ← py_int (play_count current);
  p ← py_int (play_count previous);
  Some (current, change_str (c - p)).

(** [calculate_changes]: each sample with its [change] text, the input
    order reversed; [None] when an [int] raises. *)
Definition calculate_changes (entries : list entry) : option (list (entry * string)) :=
  match entries with
  | [] => Some []
  | first :: rest =>
      changes ← mapM (λ pc, change_of pc.1 pc.2) (zip entries rest);
      Some (reverse ((first, "--") :: changes))
  end.

End WithLib.

End AppDisplay.

(** ** app.py: the loop of [update_play_count] *)

Module AppLoop.

(** The global [last_update_time] and the entries of the tracked songs,
    with [log] the times at which [last_update_time] was set so far. *)
Record loop_state : Type := mk_loop {
  last_update_time : option aware;
  tracked : list (string * App.song_state);
  log : list aware
}.

(** [last_update_time is None or
     (current_time - last_update_time).total_seconds() >= 900]. *)
Definition due (last : option aware) (current_time : aware) : bool :=
  match last with
  | None => true
  | Some l => Qle_bool (inject_Z 900) (total_seconds (aware_sub current_time l))
  end.

(** One turn of the [while True] loop: [current_time] is the clock reading
    and [fetch] what [fetch_play_count] returns for each song. *)
Definition turn (fetch : string -> option string) (current_time : aware)
    (st : loop_state) : loop_state :=
  if due (last_update_time st) current_time then
    {| last_update_time := Some current_time;
       tracked := (λ p, (p.1, App.ingest (fetch p.1) current_time p.2)) <$> tracked st;
       log := log st ++ [current_time] |}
  else st.

Fixpoint turns (feed : list (aware * (string -> option string))) (st : loop_state)
    : loop_state :=
  match feed with
  | [] => st
  | (current_time, fetch) :: rest => turns rest (turn fetch current_time st)
  end.

End AppLoop.

(** ** Shapes of a stored series *)

(** No two neighbours carry the same play count. *)
Definition no_repeat (l : list entry) : Prop :=
  ∀ (i : nat) a b, l !! i = Some a → l !! S i = Some b →
    play_count a ≠ play_count b.

Section Shapes.
Context `{PyLib}.

(** No two neighbours whose timestamps parse lie in one calendar hour. *)
Definition hourly (l : list entry) : Prop :=
  ∀ (i : nat) a b ta tb, l !! i = Some a → l !! S i = Some b →
    civil_time a = Some ta → civil_time b = Some tb →
    hour_bucket ta ≠ hour_bucket tb.

End Shapes.

(** The text [%Y-%m-%d %H:%M:%S] of a civil time. *)
Definition civil_text (t : datetime) : string :=
  pad4 (year t) +:+ "-" +:+ pad2 (month t) +:+ "-" +:+ pad2 (day t) +:+ " " +:+
  pad2 (hour t) +:+ ":" +:+ pad2 (minute t) +:+ ":" +:+ pad2 (second t).

(** ** app.py: the scraper *)

Module AppScrape.
Import PyText.

(** What [fetch_play_count] asks of the parsed page: the text of the first
    [p] with one of the two classes, the text of the first [span] of the
    album class and the stripped strings in document order. *)
Record page : Type := mk_page {
  play_info : option str;
  album_info : option str;
  stripped_strings : list str
}.

Section WithText.
Context `{TextLib}.

(** [''.join(filter(str.isdigit, text.split(sep)[0].strip()))] under
    [if sep in text], a result without digits being passed over. *)
Definition digits_before (sep text : str) : option str :=
  if contains sep text then
    match digits_of (strip (before sep text)) with
    | [] => None
    | play_count => Some play_count
    end
  else None.

(** The closing loop: the first string with ['Plays'] decides, the loop
    ends with it. *)
Fixpoint first_plays (texts : list str) : option str :=
  match texts with
  | [] => None
  | text :: rest =>
      if contains (codes "Plays") text then digits_before (codes "Plays") text
      else first_plays rest
  end.

Definition scan (pg : page) : option str :=
  match play_info pg ≫= digits_before (codes "Play") with
  | Some play_count => Some play_count
  | None =>
      match album_info pg ≫= digits_before (codes "Plays") with
      | Some play_count => Some play_count
      | None => first_plays (stripped_strings pg)
      end
  end.

(** [fetch_play_count]: [None] for the response stands for a request, a
    status check or a parse that raised. *)
Definition fetch_play_count (response : option page) : option str :=
  response ≫= scan.

(** A non-empty text of [isdigit] characters. *)
Definition digit_text (s : str) : Prop :=
  s ≠ [] ∧ Forall (λ c, isdigit c = true) s.

End WithText.

End AppScrape.

(** ** A reference table for the characters of the examples *)

Module RefText.
Import PyText.

(** The Arabic-Indic digits are decimal digits, the superscripts 1, 2 and
    3 digits that are no decimals. *)
Definition digit_table (c : N) : digit_kind :=
  if ((1632 <=? c) && (c <=? 1641))%N then DecimalDigit (c - 1632)
  else if ((c =? 178) || (c =? 179) || (c =? 185))%N then OtherDigit
  else NoDigit.

(** The next-line and no-break space characters. *)
Definition space_table (c : N) : bool := ((c =? 133) || (c =? 160))%N.

#[export] Instance ref_text : TextLib :=
  {| digit_kind_above_ascii := digit_table;
     isspace_above_ascii := space_table;
     int_max_str_digits := 4300 |}.

End RefText.

(** ** app.py: the look-up of the count of 24 hours ago *)

Module AppHome.
Section WithLib.
Context `{PyLib}.

(** [datetime.strptime(entry['timestamp'].replace(' IST', ''),
    '%Y-%m-%d %H:%M:%S')]; [None] when it raises. *)
Definition entry_civil (e : entry) : option datetime :=
  strptime (replace " IST" "" (timestamp e)).

(** [abs((entry_time - target_time).total_seconds())], where
    [entry_time] is the civil time with the zone object attached by
    [replace(tzinfo=ist_tz)], [zone_utcoff] being the UTC offset, in
    seconds, of that object, and [target_time] is [current_time] minus
    24 hours. *)
Definition entry_diff (zone_utcoff : Z) (current_time : aware) (t : datetime) : Q :=
  Qabs (float_seconds (aware_sub (mk_aware t zone_utcoff) current_time
                       + hours_delta 24)).

(** The state of the loop: [closest_entry] with [plays_24h_ago], and
    [min_diff]. *)
Definition closest_state : Type := option (entry * Z) * option Q.

(** The body of the loop; [None] when [strptime] or [int] raises. *)
Definition closest_step (zone_utcoff : Z) (current_time : aware)
    (acc : closest_state) (e : entry) : option closest_state :=
  t ← entry_civil e;
  let diff := entry_diff zone_utcoff current_time t in
  if UpdateCounts.below diff acc.2 then
    v ← py_int (play_count e);
    Some (Some (e, v), Some diff)
  else Some acc.

Fixpoint closest_loop (zone_utcoff : Z) (current_time : aware)
    (entries : list entry) (acc : closest_state) : option closest_state :=
  match entries with
  | [] => Some acc
  | e :: rest =>
      acc' ← closest_step zone_utcoff current_time acc e;
      closest_loop zone_utcoff current_time rest acc'
  end.

(** Lines 495 to 508 of [home]: [closest_entry] and [plays_24h_ago]
    after the loop, [None] when the loop raises. *)
Definition closest_24h (zone_utcoff : Z) (current_time : aware)
    (entries : list entry) : option (option (entry * Z)) :=
  fst <$> closest_loop zone_utcoff current_time entries (None, None).

(** What the loop holds after the entries [l]. *)
Definition closest_inv (zone_utcoff : Z) (current_time : aware) (l : list entry)
    (acc : closest_state) : Prop :=
  Forall (λ e, is_Some (entry_civil e)) l ∧
  match acc with
  | (None, None) => l = []
  | (Some (e, v), Some m) =>
      ∃ l1 l2 t,
        l = l1 ++ e :: l2 ∧ entry_civil e = Some t ∧
        py_int (play_count e) = Some v ∧
        m = entry_diff zone_utcoff current_time t ∧
        (∀ e' t', e' ∈ l1 → entry_civil e' = Some t' →
           (m < entry_diff zone_utcoff current_time t')%Q) ∧
        (∀ e' t', e' ∈ l2 → entry_civil e' = Some t' →
           (m <= entry_diff zone_utcoff current_time t')%Q)
  | _ => False
  end.

End WithLib.
End AppHome.

(** * Properties *)

(** ** The history store *)

Section StoreFacts.
Context `{PyLib}.
Import UpdateCounts.

Lemma save_json_lookup (path : string) (data : list entry) (fs : files) :
  save_json path data fs !! path = Some (JsonDoc data).
Proof.
  unfold save_json, os_replace.
  rewrite lookup_insert_eq. apply lookup_insert_eq.
Qed.

Lemma load_after_save (path : string) (data : list entry) (fs : files) :
  load_json path (save_json path data fs) = data.
Proof. unfold load_json. now rewrite save_json_lookup. Qed.

Lemma load_json_unreadable (path : string) (fs : files) :
  fs !! path = Some Unreadable → load_json path fs = [].
Proof. intros E. unfold load_json. now rewrite E. Qed.

Lemma decreasing_nil (count : Z) : decreasing [] count = false.
Proof. reflexivity. Qed.

Lemma should_append_nil (now_dt : datetime) : should_append_hourly [] now_dt = true.
Proof. reflexivity. Qed.

End StoreFacts.

(** ** The ingestion gate of [update_song] *)

Section Ingestion.
Context `{PyLib}.
Import UpdateCounts Policy.

(** C1. When the last stored sample (if any) has a parseable timestamp and
    an integer play count, [update_song] decides as the policy of the
    design document does: it returns [False] and leaves the files alone on
    a failed fetch, on a value below the last stored one and on a clock
    reading in the hour bucket of the last stored sample; otherwise (and
    always on an empty series) it returns [True] and the file then holds
    the old series followed by the sample [(now, value)]. *)
Theorem update_song_follows_policy (meta : song_meta) (fetched : option Z)
    (now : aware) (fs : files) :
  let data := load_json (json_file meta) fs in
  (∀ l, last data = Some l → is_Some (civil_time l) ∧ is_Some (int_value l)) →
  match decide_ingest (last_sample data) fetched (naive now), fetched with
  | Accept, Some v =>
      let data' := data ++ [mk_entry (strftime_ist (naive now)) (str_of_int v)] in
      update_song meta fetched now fs = (true, save_json (json_file meta) data' fs) ∧
      load_json (json_file meta) (snd (update_song meta fetched now fs)) = data'
  | _, _ => update_song meta fetched now fs = (false, fs)
  end.
Proof.
  intros data Hlast. unfold update_song. fold data.
  destruct fetched as [v|]; [|reflexivity].
  unfold last_sample, decreasing, should_append_hourly.
  destruct (last data) as [l|] eqn:El; simpl.
  - destruct (Hlast l eq_refl) as [[t Et] [lv Ev]].
    unfold civil_time, int_value in *. rewrite Et, Ev. simpl.
    destruct (v <? lv); [reflexivity|].
    rewrite (bool_decide_ext (hour_bucket (naive now) = hour_bucket t)
                             (hour_bucket t = hour_bucket (naive now)))
      by (split; congruence).
    destruct (bool_decide (hour_bucket t = hour_bucket (naive now))); simpl;
      [reflexivity|].
    split; [reflexivity | apply load_after_save].
  - split; [reflexivity | apply load_after_save].
Qed.

(** C9. When the last stored sample's play count is not an integer, the
    guard against decreasing values never fires, whatever the fetched
    value, however small.  As soon as the hour rule allows (the timestamp
    of the last sample does not parse, or parses to another calendar
    hour), [update_song] returns [True] and the file then holds the old
    series followed by the sample [(now, value)]. *)
Theorem decreasing_guard_bypassed (meta : song_meta) (count : Z) (now : aware)
    (fs : files) (l : entry) :
  let data := load_json (json_file meta) fs in
  let data' := data ++ [mk_entry (strftime_ist (naive now)) (str_of_int count)] in
  last data = Some l →
  int_value l = None →
  (∀ t, civil_time l = Some t → hour_bucket (naive now) ≠ hour_bucket t) →
  decreasing data count = false ∧
  fst (update_song meta (Some count) now fs) = true ∧
  snd (update_song meta (Some count) now fs) !! json_file meta = Some (JsonDoc data') ∧
  load_json (json_file meta) (snd (update_song meta (Some count) now fs)) = data'.
Proof.
  intros data data' El Ev Hb.
  assert (Hd : decreasing data count = false).
  { unfold decreasing. fold data. rewrite El. unfold int_value in Ev. now rewrite Ev. }
  assert (Ha : should_append_hourly data (naive now) = true).
  { unfold should_append_hourly. rewrite El. fold (civil_time l).
    destruct (civil_time l) as [t|] eqn:Et; [|reflexivity].
    apply negb_true_iff, bool_decide_eq_false. now apply Hb. }
  assert (U : update_song meta (Some count) now fs =
              (true, save_json (json_file meta) data' fs)).
  { unfold update_song. fold data. now rewrite Hd, Ha. }
  rewrite U. cbn [fst snd].
  repeat split; [exact Hd | apply save_json_lookup | apply load_after_save].
Qed.

(** C10. When the last stored sample's timestamp does not parse,
    [should_append_hourly] answers [True] for every clock reading, the
    calendar hour that sample was taken in included.  A fetched value
    that is not below the last stored integer value (any value, when
    that play count is no integer) is then appended: [update_song]
    returns [True] and the file holds the old series followed by the
    sample [(now, value)]. *)
Theorem unparseable_timestamp_appends (meta : song_meta) (count : Z)
    (now : aware) (fs : files) (l : entry) :
  let data := load_json (json_file meta) fs in
  let data' := data ++ [mk_entry (strftime_ist (naive now)) (str_of_int count)] in
  last data = Some l →
  civil_time l = None →
  (∀ v, int_value l = Some v → v <= count) →
  should_append_hourly data (naive now) = true ∧
  fst (update_song meta (Some count) now fs) = true ∧
  snd (update_song meta (Some count) now fs) !! json_file meta = Some (JsonDoc data') ∧
  load_json (json_file meta) (snd (update_song meta (Some count) now fs)) = data'.
Proof.
  intros data data' El Et Hv.
  assert (Ha : should_append_hourly data (naive now) = true).
  { unfold should_append_hourly. fold data. rewrite El.
    unfold civil_time in Et. now rewrite Et. }
  assert (Hd : decreasing data count = false).
  { unfold decreasing. rewrite El. fold (int_value l).
    destruct (int_value l) as [v|] eqn:Ev; [|reflexivity].
    apply Z.ltb_ge. now apply Hv. }
  assert (U : update_song meta (Some count) now fs =
              (true, save_json (json_file meta) data' fs)).
  { unfold update_song. fold data. now rewrite Hd, Ha. }
  rewrite U. cbn [fst snd].
  repeat split; [exact Ha | apply save_json_lookup | apply load_after_save].
Qed.

(** C8, as the code has it. When the history file exists but cannot be
    read, [load_json] gives the empty series, and [update_song] then
    accepts any fetched value and replaces the file by a series of that
    one sample. *)
Theorem unreadable_store_is_replaced (meta : song_meta) (count : Z)
    (now : aware) (fs : files) :
  fs !! json_file meta = Some Unreadable →
  load_json (json_file meta) fs = [] ∧
  update_song meta (Some count) now fs =
    (true, save_json (json_file meta) [new_entry (naive now) count] fs) ∧
  snd (update_song meta (Some count) now fs) !! json_file meta =
    Some (JsonDoc [new_entry (naive now) count]).
Proof.
  intros E. pose proof (load_json_unreadable _ _ E) as L.
  assert (U : update_song meta (Some count) now fs =
              (true, save_json (json_file meta) [new_entry (naive now) count] fs)).
  { unfold update_song. now rewrite L. }
  split; [exact L|]. split; [exact U|].
  rewrite U. apply save_json_lookup.
Qed.

End Ingestion.

Section IngestionExamples.
Import UpdateCounts Policy Samples RefLib.

Lemma update_song_follows_policy_witness :
  update_song meta0 (Some 620) (at_ 11 10 0) (store [s_1000])
    = (true, save_json (json_file meta0) [s_1000; s_1110] (store [s_1000])) ∧
  load_json (json_file meta0)
    (snd (update_song meta0 (Some 620) (at_ 11 10 0) (store [s_1000])))
    = [s_1000; s_1110].
Proof.
  refine (update_song_follows_policy meta0 (Some 620) (at_ 11 10 0)
            (store [s_1000]) _).
  intros l E. vm_compute in E. injection E as <-.
  split; eexists; vm_compute; reflexivity.
Defined.

Lemma decreasing_guard_bypassed_witness :
  decreasing [s_0900; s_bad_count] 5 = false ∧
  fst (update_song meta0 (Some 5) (at_ 11 10 0) (store [s_0900; s_bad_count])) = true ∧
  snd (update_song meta0 (Some 5) (at_ 11 10 0) (store [s_0900; s_bad_count]))
    !! json_file meta0
    = Some (JsonDoc [s_0900; s_bad_count; mk_entry "2024-01-01 11:10:00 IST" "5"]) ∧
  load_json (json_file meta0)
    (snd (update_song meta0 (Some 5) (at_ 11 10 0) (store [s_0900; s_bad_count])))
    = [s_0900; s_bad_count; mk_entry "2024-01-01 11:10:00 IST" "5"].
Proof.
  refine (decreasing_guard_bypassed meta0 5 (at_ 11 10 0)
            (store [s_0900; s_bad_count]) s_bad_count _ _ _).
  - vm_compute; reflexivity.
  - vm_compute; reflexivity.
  - intros t E. vm_compute in E. injection E as <-. vm_compute. discriminate.
Defined.

(** The value 5 lands after the stored 100. *)
Example decreasing_guard_bypassed_run :
  load_json (json_file meta0)
    (snd (update_song meta0 (Some 5) (at_ 11 10 0) (store [s_0900; s_bad_count])))
  = [s_0900; s_bad_count; mk_entry "2024-01-01 11:10:00 IST" "5"].
Proof. vm_compute. reflexivity. Qed.

Lemma unparseable_timestamp_appends_witness :
  should_append_hourly [s_bad_time] (naive (at_ 10 20 0)) = true ∧
  fst (update_song meta0 (Some 500) (at_ 10 20 0) (store [s_bad_time])) = true ∧
  snd (update_song meta0 (Some 500) (at_ 10 20 0) (store [s_bad_time]))
    !! json_file meta0
    = Some (JsonDoc [s_bad_time; mk_entry "2024-01-01 10:20:00 IST" "500"]) ∧
  load_json (json_file meta0)
    (snd (update_song meta0 (Some 500) (at_ 10 20 0) (store [s_bad_time])))
    = [s_bad_time; mk_entry "2024-01-01 10:20:00 IST" "500"].
Proof.
  refine (unparseable_timestamp_appends meta0 500 (at_ 10 20 0)
            (store [s_bad_time]) s_bad_time _ _ _).
  - vm_compute; reflexivity.
  - vm_compute; reflexivity.
  - intros v E. vm_compute in E. injection E as <-. lia.
Defined.

Lemma unreadable_store_is_replaced_witness :
  load_json (json_file meta0) corrupt_store = [] ∧
  update_song meta0 (Some 500) (at_ 10 0 0) corrupt_store
    = (true, save_json (json_file meta0) [new_entry (naive (at_ 10 0 0)) 500]
               corrupt_store) ∧
  snd (update_song meta0 (Some 500) (at_ 10 0 0) corrupt_store) !! json_file meta0
    = Some (JsonDoc [new_entry (naive (at_ 10 0 0)) 500]).
Proof.
  refine (unreadable_store_is_replaced meta0 500 (at_ 10 0 0) corrupt_store _).
  vm_compute; reflexivity.
Defined.

(** The unreadable file of [corrupt_store] is gone after one accepted
    fetch. *)
Lemma failed_read_overwrites : ¬ Claimed.failed_read_keeps_file.
Proof.
  intros C.
  specialize (C meta0 500 (at_ 10 0 0) corrupt_store eq_refl).
  vm_compute in C. discriminate C.
Qed.

End IngestionExamples.

(** ** Floats of whole microseconds *)

Section FloatFacts.

(** Rounding moves a quotient by half a unit at most. *)
Lemma round_half_even_near (p q : Z) :
  0 < q → 2 * Z.abs (round_half_even p q * q - p) <= q.
Proof.
  intros Hq. unfold round_half_even.
  pose proof (Z.div_mod p q ltac:(lia)) as Hdm.
  pose proof (Z.mod_pos_bound p q Hq) as Hr.
  set (m := p / q) in *. set (r := p mod q) in *.
  destruct (Z.ltb_spec (2 * r) q); [nia|].
  destruct (Z.ltb_spec q (2 * r)); [nia|].
  destruct (Z.even m); nia.
Qed.

Lemma round_half_even_nonneg (p q : Z) :
  0 <= p → 0 < q → 0 <= round_half_even p q.
Proof.
  intros Hp Hq. unfold round_half_even.
  pose proof (Z.div_pos p q Hp Hq).
  repeat case_match; lia.
Qed.

(** Below 2^33 seconds the float of a number of microseconds has twenty
    binary places or more. *)
Lemma binary64_small (n : Z) :
  0 < n < 8589934592000000 →
  ∃ s, 20 <= s ∧
    binary64 n 1000000 = (round_half_even (n * 2 ^ s) 1000000 # Z.to_pos (2 ^ s)).
Proof.
  intros Hn. unfold binary64.
  destruct (Z.eqb_spec n 0); [lia|].
  assert (Z.log2 n < 53) as Hlog by (apply Z.log2_lt_pow2; lia).
  change (Z.log2 1000000) with 19.
  set (k := Z.log2 n - 19).
  set (reaches := if 0 <=? k then _ else _).
  assert ((if reaches then k - 52 else k - 53) <= -20) as He.
  { destruct reaches eqn:Hr; [|lia].
    destruct (Z.eq_dec k 33) as [Hk|]; [|lia].
    exfalso. subst reaches. rewrite Hk in Hr. cbn in Hr. lia. }
  set (e := if reaches then _ else _) in *.
  destruct (Z.leb_spec 0 e); [lia|].
  exists (- e). split; [lia|reflexivity].
Qed.

(** There it is within 2^-21 seconds of the exact quotient. *)
Lemma binary64_error (n : Z) :
  0 <= n < 8589934592000000 →
  (binary64 n 1000000 - (n # 1000000) <= 1 # 2097152)%Q ∧
  ((n # 1000000) - binary64 n 1000000 <= 1 # 2097152)%Q.
Proof.
  intros Hn. destruct (Z.eq_dec n 0) as [->|].
  { split; vm_compute; discriminate. }
  destruct (binary64_small n) as (s & Hs & ->); [lia|].
  pose proof (round_half_even_near (n * 2 ^ s) 1000000 ltac:(lia)) as Hnear.
  assert (2 ^ 20 <= 2 ^ s) as Hpow by (apply Z.pow_le_mono_r; lia).
  set (m := round_half_even _ _) in *. set (P := 2 ^ s) in *.
  change (2 ^ 20) with 1048576 in Hpow.
  unfold Qle, Qminus, Qplus, Qopp; cbn [Qnum Qden].
  rewrite !Pos2Z.inj_mul, !Z2Pos.id by lia.
  split; lia.
Qed.

(** So two different numbers of microseconds there have different floats,
    in the same order. *)
Lemma binary64_separates (a b : Z) :
  0 <= a → a < b → b < 8589934592000000 →
  (binary64 a 1000000 < binary64 b 1000000)%Q.
Proof.
  intros Ha Hab Hb.
  destruct (binary64_error a) as [Ha1 _]; [lia|].
  destruct (binary64_error b) as [_ Hb2]; [lia|].
  assert ((a # 1000000) + (1 # 1000000) <= (b # 1000000))%Q as Hstep.
  { unfold Qle, Qplus; cbn [Qnum Qden]. lia. }
  lra.
Qed.

Lemma binary64_nonneg (n d : Z) :
  0 <= n → 0 < d → 0 <= Qnum (binary64 n d).
Proof.
  intros Hn Hd. unfold binary64.
  destruct (n =? 0); [cbn; lia|].
  set (k := Z.log2 n - Z.log2 d).
  set (reaches := if 0 <=? k then _ else _).
  set (e := if reaches then _ else _).
  destruct (Z.leb_spec 0 e).
  - cbn [inject_Z Qnum].
    assert (0 < 2 ^ e) by (apply Z.pow_pos_nonneg; lia).
    pose proof (round_half_even_nonneg n (d * 2 ^ e) Hn ltac:(nia)). nia.
  - cbn [Qnum].
    assert (0 < 2 ^ (- e)) by (apply Z.pow_pos_nonneg; lia).
    apply round_half_even_nonneg; nia.
Qed.

(** [abs(n / d)] is the float of [abs(n)] over [d]. *)
Lemma Qabs_true_divide (n d : Z) :
  0 < d → Qabs (true_divide n d) = binary64 (Z.abs n) d.
Proof.
  intros Hd. unfold true_divide.
  destruct (Z.ltb_spec n 0).
  - rewrite Z.abs_neq by lia.
    pose proof (binary64_nonneg (- n) d ltac:(lia) Hd) as Hq.
    destruct (binary64 (- n) d) as [num den]. cbn in *.
    rewrite Z.abs_opp, Z.abs_eq by lia. reflexivity.
  - rewrite Z.abs_eq by lia.
    pose proof (binary64_nonneg n d ltac:(lia) Hd) as Hq.
    destruct (binary64 n d) as [num den]. cbn in *.
    rewrite Z.abs_eq by lia. reflexivity.
Qed.

Lemma round_half_even_lower (p q c : Z) :
  0 < q → c * q <= p → c <= round_half_even p q.
Proof.
  intros Hq Hp. unfold round_half_even.
  assert (c <= p / q) by (apply Z.div_le_lower_bound; lia).
  repeat case_match; lia.
Qed.

(** From 2^33 seconds on the float is 2^33 or more. *)
Lemma binary64_large (n : Z) :
  8589934592000000 <= n → (inject_Z 8589934592 <= binary64 n 1000000)%Q.
Proof.
  intros Hn. unfold binary64.
  destruct (Z.eqb_spec n 0); [lia|].
  assert (52 <= Z.log2 n) as Hlog by (apply Z.log2_le_pow2; lia).
  destruct (Z.log2_spec n ltac:(lia)) as [Hlo _].
  change (Z.log2 1000000) with 19.
  set (k := Z.log2 n - 19).
  replace (Z.log2 n) with (k + 19) in Hlo by lia.
  assert (33 <= k) as Hk by lia. clearbody k.
  destruct (Z.leb_spec 0 k); [|lia].
  assert (∃ e, (e = k - 52 ∨ e = k - 53) ∧ -19 <= e ∧ 2 ^ 33 <= 2 ^ (e + 52) ∧
               2 ^ (e + 52) * 1000000 <= n ∧
               (if 1000000 * 2 ^ k <=? n then k - 52 else k - 53) = e)
    as (e & _ & He & Hpow & Hsc & ->).
  { destruct (Z.leb_spec (1000000 * 2 ^ k) n) as [Hr|Hr].
    - exists (k - 52). replace (k - 52 + 52) with k by lia.
      repeat split; [auto|lia| |lia].
      apply Z.pow_le_mono_r; lia.
    - assert (k ≠ 33) by (intros ->; cbn in Hr; lia).
      exists (k - 53). replace (k - 53 + 52) with (k - 1) by lia.
      repeat split; [auto|lia| | ].
      + apply Z.pow_le_mono_r; lia.
      + replace (k + 19) with (k - 1 + 20) in Hlo by lia.
        rewrite Z.pow_add_r in Hlo by lia.
        assert (0 < 2 ^ (k - 1)) by (apply Z.pow_pos_nonneg; lia).
        change (2 ^ 20) with 1048576 in Hlo. nia. }
  destruct (Z.leb_spec 0 e).
  - rewrite Z.pow_add_r in Hpow, Hsc by lia.
    change (2 ^ 52) with 4503599627370496 in *. change (2 ^ 33) with 8589934592 in *.
    assert (0 < 2 ^ e) by (apply Z.pow_pos_nonneg; lia).
    pose proof (round_half_even_lower n (1000000 * 2 ^ e) 4503599627370496
                  ltac:(lia) ltac:(lia)) as Hm.
    unfold Qle, inject_Z; cbn [Qnum Qden]. nia.
  - assert (0 < 2 ^ (- e)) by (apply Z.pow_pos_nonneg; lia).
    assert (2 ^ (- e) <= 2 ^ 19) as Hle by (apply Z.pow_le_mono_r; lia).
    change (2 ^ 19) with 524288 in Hle.
    assert (2 ^ (e + 52) * 2 ^ (- e) = 4503599627370496) as Hinv.
    { rewrite <- Z.pow_add_r by lia. replace (e + 52 + - e) with 52 by lia. reflexivity. }
    pose proof (round_half_even_lower (n * 2 ^ (- e)) 1000000 4503599627370496
                  ltac:(lia)) as Hm.
    unfold Qle, inject_Z; cbn [Qnum Qden].
    rewrite Z2Pos.id by lia.
    assert (4503599627370496 <= round_half_even (n * 2 ^ (- e)) 1000000); [|nia].
    apply Hm. nia.
Qed.

(** The quotients [1/10], [1/3], [123.456789] and two that need a
    rounding of a large numerator, as Python gives them
    ([float.as_integer_ratio]). *)
Example binary64_samples :
  (binary64 1 10 == 3602879701896397 # 36028797018963968)%Q ∧
  (binary64 1 3 == 6004799503160661 # 18014398509481984)%Q ∧
  (binary64 123456789 1000000 == 8687499202136843 # 70368744177664)%Q ∧
  (binary64 17179869184500001 1000000 == 34359738369 # 2)%Q ∧
  (binary64 1152921504606846977 1 == 1152921504606846976 # 1)%Q.
Proof. repeat split; vm_compute; reflexivity. Qed.

End FloatFacts.

(** ** The reference search of [find_reference] *)

Section Reference.
Context `{PyLib}.
Import UpdateCounts.

Lemma below_spec (diff m : Q) : below diff (Some m) = true ↔ (diff < m)%Q.
Proof.
  unfold below. rewrite negb_true_iff, <- not_true_iff_false, Qle_bool_iff.
  split; [apply Qnot_le_lt | apply Qlt_not_le].
Qed.

Lemma below_false (diff m : Q) : below diff (Some m) = false → (m <= diff)%Q.
Proof. unfold below. rewrite negb_false_iff. apply Qle_bool_iff. Qed.

Lemma reference_inv_step (now : aware) (hours_back : Z) (l : list entry)
    (acc : option entry * option Q) (x : entry) :
  reference_inv now hours_back l acc →
  reference_inv now hours_back (l ++ [x]) (reference_step now hours_back acc x).
Proof.
  intros I. unfold reference_step, safe_parse_ts.
  fold (civil_time x).
  destruct (civil_time x) as [tx|] eqn:Ex.
  - destruct acc as [[e|] [m|]]; simpl in I; try contradiction; simpl snd.
    + destruct I as (l1 & l2 & t & -> & Et & -> & Hb & Ha).
      destruct (below (reference_diff now hours_back tx)
                      (Some (reference_diff now hours_back t))) eqn:B.
      * apply below_spec in B.
        exists (l1 ++ e :: l2), [], tx. repeat split; auto.
        -- intros e' t' Hin Et'.
           apply elem_of_app in Hin as [Hin|Hin].
           ++ eapply Qlt_trans; [exact B | eauto].
           ++ apply elem_of_cons in Hin as [->|Hin].
              ** rewrite Et in Et'. now injection Et' as <-.
              ** eapply Qlt_le_trans; [exact B | eauto].
        -- intros e' t' Hin. now apply elem_of_nil in Hin.
      * apply below_false in B.
        exists l1, (l2 ++ [x]), t. repeat split; auto.
        -- now rewrite <- app_assoc.
        -- intros e' t' Hin Et'.
           apply elem_of_app in Hin as [Hin|Hin]; [eauto|].
           apply list_elem_of_singleton in Hin as ->.
           rewrite Ex in Et'. now injection Et' as <-.
    + exists l, [], tx. repeat split; auto.
      * intros e' t' Hin Et'.
        rewrite Forall_forall in I. rewrite (I e' Hin) in Et'. discriminate.
      * intros e' t' Hin. now apply elem_of_nil in Hin.
  - destruct acc as [[e|] [m|]]; simpl in *; try contradiction.
    + destruct I as (l1 & l2 & t & -> & Et & -> & Hb & Ha).
      exists l1, (l2 ++ [x]), t. repeat split; auto.
      * now rewrite <- app_assoc.
      * intros e' t' Hin Et'.
        apply elem_of_app in Hin as [Hin|Hin]; [eauto|].
        apply list_elem_of_singleton in Hin as ->. congruence.
    + apply Forall_app. split; [exact I|]. now constructor.
Qed.

Lemma reference_inv_fold (now : aware) (hours_back : Z) (l : list entry) :
  reference_inv now hours_back l
    (fold_left (reference_step now hours_back) l (None, None)).
Proof.
  induction l as [|x l IH] using rev_ind.
  - simpl. constructor.
  - rewrite fold_left_app. simpl. now apply reference_inv_step.
Qed.

(** The float the loop compares is the float of the distance of the
    design document. *)
Lemma reference_diff_distance (now : aware) (hours_back : Z) (t : datetime) :
  reference_diff now hours_back t
    = binary64 (TimeSpec.distance now hours_back (localize t)) 1000000.
Proof.
  unfold reference_diff, float_seconds. rewrite Qabs_true_divide by lia.
  f_equal. unfold TimeSpec.distance. f_equal.
  unfold aware_sub, dt_sub, hours_delta, mk_timedelta, TimeSpec.instant. lia.
Qed.

Lemma distance_nonneg (now : aware) (hours_back : Z) (t : aware) :
  0 <= TimeSpec.distance now hours_back t.
Proof. apply Z.abs_nonneg. Qed.

Lemma binary64_in_range (n : Z) :
  0 <= n < TimeSpec.FLOAT_RANGE → (binary64 n 1000000 < inject_Z 8589934592)%Q.
Proof.
  unfold TimeSpec.FLOAT_RANGE. intros Hn.
  destruct (binary64_error n Hn) as [Hup _].
  assert ((n # 1000000) + (1 # 1000000) <= inject_Z 8589934592)%Q as Hstep.
  { unfold Qle, Qplus, inject_Z; cbn [Qnum Qden]. lia. }
  lra.
Qed.

(** C6. [find_reference] returns the first entry, in stored order, whose
    distance to [now] minus the look-back is least as the float of
    seconds that Python compares; an entry whose timestamp does not
    parse is never returned, and the answer is [None] only when no
    timestamp parses.  When some parseable entry lies within 2^33
    seconds of the target, so does the answer, and it is the entry
    closest in exact absolute time difference, the first in stored order
    among equally close ones. *)
Theorem find_reference_closest (now : aware) (entries : list entry)
    (hours_back : Z) :
  let dist (t : datetime) := TimeSpec.distance now hours_back (localize t) in
  let secs (t : datetime) := binary64 (dist t) 1000000 in
  match find_reference now entries hours_back with
  | None => Forall (λ e, civil_time e = None) entries
  | Some e =>
      ∃ l1 l2 t,
        entries = l1 ++ e :: l2 ∧ civil_time e = Some t ∧
        (∀ e' t', e' ∈ l1 → civil_time e' = Some t' → (secs t < secs t')%Q) ∧
        (∀ e' t', e' ∈ l2 → civil_time e' = Some t' → (secs t <= secs t')%Q) ∧
        ((∃ e0 t0, e0 ∈ entries ∧ civil_time e0 = Some t0 ∧
                   dist t0 < TimeSpec.FLOAT_RANGE) →
         dist t < TimeSpec.FLOAT_RANGE ∧
         (∀ e' t', e' ∈ l1 → civil_time e' = Some t' → dist t < dist t') ∧
         (∀ e' t', e' ∈ l2 → civil_time e' = Some t' → dist t <= dist t'))
  end.
Proof.
  intros dist secs. unfold find_reference.
  pose proof (reference_inv_fold now hours_back entries) as I.
  destruct (fold_left _ _ _) as [[e|] [m|]]; simpl in *; try contradiction;
    [|exact I].
  destruct I as (l1 & l2 & t & E & Et & _ & Hb & Ha).
  assert (Hb' : ∀ e' t', e' ∈ l1 → civil_time e' = Some t' → (secs t < secs t')%Q).
  { intros e' t' Hin Et'. specialize (Hb e' t' Hin Et').
    now rewrite !reference_diff_distance in Hb. }
  assert (Ha' : ∀ e' t', e' ∈ l2 → civil_time e' = Some t' → (secs t <= secs t')%Q).
  { intros e' t' Hin Et'. specialize (Ha e' t' Hin Et').
    now rewrite !reference_diff_distance in Ha. }
  exists l1, l2, t.
  split; [exact E|]. split; [exact Et|]. split; [exact Hb'|]. split; [exact Ha'|].
  intros (e0 & t0 & Hin & Et0 & Hr).
  assert (Hnear : dist t < TimeSpec.FLOAT_RANGE).
  { destruct (Z.lt_ge_cases (dist t) TimeSpec.FLOAT_RANGE) as [|Hfar]; [assumption|].
    exfalso.
    assert (secs t <= secs t0)%Q as Hle.
    { rewrite E in Hin. apply elem_of_app in Hin as [Hin|Hin].
      - apply Qlt_le_weak. eauto.
      - apply elem_of_cons in Hin as [->|Hin]; [|eauto].
        rewrite Et in Et0. injection Et0 as <-. apply Qle_refl. }
    pose proof (binary64_large (dist t) Hfar) as Hbig.
    pose proof (binary64_in_range (dist t0)
                  (conj (distance_nonneg _ _ _) Hr)) as Hsmall.
    fold (secs t) in Hbig. fold (secs t0) in Hsmall. lra. }
  split; [exact Hnear|]. split.
  - intros e' t' Hin' Et'. specialize (Hb' e' t' Hin' Et').
    destruct (Z.lt_ge_cases (dist t) (dist t')) as [|Hge]; [assumption|].
    exfalso.
    destruct (Z.eq_dec (dist t') (dist t)) as [Heq|Hne].
    + unfold secs in Hb'. rewrite Heq in Hb'. exact (Qlt_irrefl _ Hb').
    + pose proof (binary64_separates (dist t') (dist t)
                    (distance_nonneg _ _ _) ltac:(lia) Hnear) as Hsep.
      fold (secs t) in Hsep. fold (secs t') in Hsep. lra.
  - intros e' t' Hin' Et'. specialize (Ha' e' t' Hin' Et').
    destruct (Z.le_gt_cases (dist t) (dist t')) as [|Hgt]; [assumption|].
    exfalso.
    pose proof (binary64_separates (dist t') (dist t)
                  (distance_nonneg _ _ _) Hgt Hnear) as Hsep.
    fold (secs t) in Hsep. fold (secs t') in Hsep. lra.
Qed.

Lemma find_reference_single (now : aware) (hours_back : Z) (e : entry) :
  find_reference now [e] hours_back =
    match civil_time e with Some _ => Some e | None => None end.
Proof.
  unfold find_reference, reference_step, safe_parse_ts. simpl.
  fold (civil_time e). now destruct (civil_time e).
Qed.

(** C7, as the code has it. An empty series leaves the song out of the
    summary. A series of one sample with an integer play count is listed:
    its hour and day increases are [None] when the sample's timestamp
    does not parse, and the number 0, measured against the sample itself,
    when it parses. *)
Theorem single_sample_summary (now_h now_d : aware) (e : entry) (v : Z) :
  int_value e = Some v →
  song_summary now_h now_d [] = Omitted ∧
  (civil_time e = None →
   song_summary now_h now_d [e] =
     Stats (mk_stats v None None None None 1)) ∧
  (is_Some (civil_time e) →
   song_summary now_h now_d [e] =
     Stats (mk_stats v (Some v) (Some 0) (Some v) (Some 0) 1)).
Proof.
  intros Ev. unfold int_value in Ev.
  split; [reflexivity|].
  unfold song_summary.
  change (last [e]) with (Some e). cbv beta iota.
  rewrite Ev, !find_reference_single.
  split.
  - intros ->. reflexivity.
  - intros [t ->]. unfold increase. rewrite Ev. simpl.
    now rewrite Z.sub_diag.
Qed.

End Reference.

Section ReferenceExamples.
Import UpdateCounts Samples RefLib.

Lemma single_sample_summary_witness :
  song_summary (at_ 10 30 0) (at_ 10 30 0) [s_1000] =
    Stats (mk_stats 500 (Some 500) (Some 0) (Some 500) (Some 0) 1).
Proof.
  refine (proj2 (proj2 (single_sample_summary (at_ 10 30 0) (at_ 10 30 0)
                          s_1000 500 _)) _).
  - vm_compute; reflexivity.
  - eexists. vm_compute. reflexivity.
Defined.

(** One stored sample is enough for a numeric hour increase. *)
Lemma single_sample_has_increase : ¬ Claimed.short_series_has_no_increase.
Proof.
  intros C.
  destruct (C (at_ 10 30 0) (at_ 10 30 0) [s_1000]
              (mk_stats 500 (Some 500) (Some 0) (Some 500) (Some 0) 1))
    as [C1 _].
  - simpl. lia.
  - vm_compute. reflexivity.
  - discriminate C1.
Qed.

Lemma find_reference_closest_witness :
  ∃ l1 l2 t,
    [ mk_entry "2024-01-01 10:00:00 IST" "100";
      mk_entry "2024-01-01 10:30:00 IST" "130";
      mk_entry "2024-01-01 11:05:00 IST" "165";
      mk_entry "2024-01-01 12:10:00 IST" "230" ]
      = l1 ++ mk_entry "2024-01-01 11:05:00 IST" "165" :: l2 ∧
    civil_time (mk_entry "2024-01-01 11:05:00 IST" "165") = Some t ∧
    TimeSpec.distance (at_ 12 10 0) 1 (localize t) = 300000000 ∧
    (∀ e' t', e' ∈ l1 → civil_time e' = Some t' →
       300000000 < TimeSpec.distance (at_ 12 10 0) 1 (localize t')) ∧
    (∀ e' t', e' ∈ l2 → civil_time e' = Some t' →
       300000000 <= TimeSpec.distance (at_ 12 10 0) 1 (localize t')).
Proof.
  pose proof (find_reference_closest (at_ 12 10 0)
                [ mk_entry "2024-01-01 10:00:00 IST" "100";
                  mk_entry "2024-01-01 10:30:00 IST" "130";
                  mk_entry "2024-01-01 11:05:00 IST" "165";
                  mk_entry "2024-01-01 12:10:00 IST" "230" ] 1) as T.
  cbv zeta in T.
  replace (find_reference _ _ _)
    with (Some (mk_entry "2024-01-01 11:05:00 IST" "165")) in T
    by (vm_compute; reflexivity).
  destruct T as (l1 & l2 & t & E & Et & _ & _ & Hex).
  assert (Ed : TimeSpec.distance (at_ 12 10 0) 1 (localize t) = 300000000).
  { vm_compute in Et. injection Et as <-. vm_compute. reflexivity. }
  destruct Hex as (_ & H1 & H2).
  - exists (mk_entry "2024-01-01 11:05:00 IST" "165"), t.
    split; [repeat constructor|]. split; [exact Et|].
    rewrite Ed. reflexivity.
  - rewrite Ed in H1, H2. exists l1, l2, t. auto.
Defined.

(** Beyond 2^33 seconds the floats of two distances a microsecond or two
    apart can be one number: read at [far_clock], the earlier sample is
    returned although the later one is closer by two microseconds. *)
Lemma find_reference_float_tie : ¬ Claimed.reference_is_closest.
Proof.
  intros C.
  specialize (C far_clock [s_early; s_late] 1 s_early s_late
                (mk_datetime 2055 8 4 22 6 56 0) (mk_datetime 3144 5 30 1 53 5 0)).
  assert (17179869184500001 <= 17179869184499999) as Habs; [|lia].
  apply C.
  - vm_compute. reflexivity.
  - vm_compute. reflexivity.
  - repeat constructor.
  - vm_compute. reflexivity.
Qed.

(** The two floats of that reading are the same number. *)
Example find_reference_float_tie_run :
  reference_diff far_clock 1 (mk_datetime 2055 8 4 22 6 56 0)
    = reference_diff far_clock 1 (mk_datetime 3144 5 30 1 53 5 0) ∧
  find_reference far_clock [s_early; s_late] 1 = Some s_early ∧
  find_reference far_clock [s_late; s_early] 1 = Some s_late.
Proof. vm_compute. auto. Qed.

(** The nearest-reference scenario of the design document: samples at
    minutes 0, 30, 65 and 130, a look-back of one hour from the latest;
    the target is minute 70 and the sample of minute 65 is chosen. *)
Example nearest_reference_scenario :
  find_reference (at_ 12 10 0)
    [ mk_entry "2024-01-01 10:00:00 IST" "100";
      mk_entry "2024-01-01 10:30:00 IST" "130";
      mk_entry "2024-01-01 11:05:00 IST" "165";
      mk_entry "2024-01-01 12:10:00 IST" "230" ] 1
  = Some (mk_entry "2024-01-01 11:05:00 IST" "165").
Proof. vm_compute. reflexivity. Qed.

End ReferenceExamples.

(** ** Sequences of ingestion steps *)

Section Sequences.
Context `{PyLib}.
Import UpdateCounts.

(** The two ways [update_song] can end. *)
Lemma update_song_cases (meta : song_meta) (fetched : option Z) (now : aware)
    (fs : files) :
  let data := load_json (json_file meta) fs in
  update_song meta fetched now fs = (false, fs) ∨
  ∃ c, fetched = Some c ∧ decreasing data c = false ∧
       should_append_hourly data (naive now) = true ∧
       update_song meta fetched now fs =
         (true, save_json (json_file meta) (data ++ [new_entry (naive now) c]) fs).
Proof.
  intros data. unfold update_song. fold data.
  destruct fetched as [c|]; [|now left].
  destruct (decreasing data c) eqn:D; [now left|].
  destruct (should_append_hourly data (naive now)) eqn:A; [|now left].
  right. exists c. auto.
Qed.

Lemma series_monotone_snoc (data : list entry) (e : entry) (c : Z) :
  series_monotone data →
  int_value e = Some c →
  decreasing data c = false →
  series_monotone (data ++ [e]).
Proof.
  intros [Hint Hord] Ee D. split.
  - apply Forall_app. split; [exact Hint|]. constructor; [eauto|constructor].
  - intros i a b va vb Ha Hb Eva Evb.
    destruct (decide (S i < length data)%nat) as [Hlt|Hge].
    + rewrite lookup_app_l in Ha by lia. rewrite lookup_app_l in Hb by lia.
      eauto.
    + assert (Hi : S i = length data).
      { apply lookup_lt_Some in Hb. rewrite length_app in Hb. simpl in Hb. lia. }
      rewrite lookup_app_l in Ha by lia.
      rewrite lookup_app_r in Hb by lia.
      replace (S i - length data)%nat with 0%nat in Hb by lia.
      simpl in Hb. injection Hb as <-.
      assert (El : last data = Some a).
      { rewrite last_lookup, <- Hi. exact Ha. }
      unfold decreasing in D. rewrite El in D.
      unfold int_value in Eva, Evb, Ee. rewrite Eva in D.
      rewrite Ee in Evb. injection Evb as <-.
      apply Z.ltb_ge in D. exact D.
Qed.

Lemma update_song_monotone (meta : song_meta) (fetched : option Z) (now : aware)
    (fs : files) :
  (∀ c, fetched = Some c → py_int (str_of_int c) = Some c) →
  series_monotone (load_json (json_file meta) fs) →
  series_monotone
    (load_json (json_file meta) (snd (update_song meta fetched now fs))).
Proof.
  intros Hrt Hm.
  destruct (update_song_cases meta fetched now fs) as [->|(c & -> & D & _ & ->)].
  - exact Hm.
  - simpl. rewrite load_after_save.
    apply (series_monotone_snoc _ _ c); [exact Hm | | exact D].
    unfold int_value, new_entry. simpl. now apply Hrt.
Qed.

Lemma update_song_rejects_smaller (meta : song_meta) (count : Z) (now : aware)
    (fs : files) (l : entry) (v : Z) :
  last (load_json (json_file meta) fs) = Some l →
  int_value l = Some v →
  count < v →
  update_song meta (Some count) now fs = (false, fs).
Proof.
  intros El Ev Hlt. unfold update_song, decreasing.
  rewrite El. unfold int_value in Ev. rewrite Ev.
  apply Z.ltb_lt in Hlt. now rewrite Hlt.
Qed.

Lemma ingest_appends_changed (pc : string) (now : aware) (song : App.song_state) :
  pc ≠ "" →
  (∀ l, last (App.song_entries song) = Some l → play_count l ≠ pc) →
  App.song_entries (App.ingest (Some pc) now song)
    = App.song_entries song ++ [App.csv_entry pc now].
Proof.
  intros Hne Hl. unfold App.ingest.
  destruct pc as [|a pc']; [congruence|].
  destruct (last (App.song_entries song)) as [l|] eqn:El.
  - rewrite bool_decide_true by auto. reflexivity.
  - reflexivity.
Qed.

(** C2, as the code has it. Fed to [update_song], any sequence of fetch
    results keeps a stored series of integer, non-decreasing play counts
    (the empty series is one) non-decreasing, and a fetched value below
    the last stored integer is never appended.  The polling loop of
    [app.py] has no such guard: it appends every fetched text that is not
    empty and differs from the last stored one. *)
Theorem update_song_values_monotone (meta : song_meta)
    (feed : list (option Z * aware)) (fs : files) :
  Forall (λ step, ∀ c, step.1 = Some c → py_int (str_of_int c) = Some c) feed →
  series_monotone (load_json (json_file meta) fs) →
  series_monotone (load_json (json_file meta) (run_updates meta feed fs)) ∧
  (∀ fs' l v count now,
     last (load_json (json_file meta) fs') = Some l → int_value l = Some v →
     count < v → update_song meta (Some count) now fs' = (false, fs')) ∧
  (∀ pc now song,
     pc ≠ "" →
     (∀ l, last (App.song_entries song) = Some l → play_count l ≠ pc) →
     App.song_entries (App.ingest (Some pc) now song)
       = App.song_entries song ++ [App.csv_entry pc now]).
Proof.
  intros Hrt Hm. split; [|split].
  - revert fs Hm. induction Hrt as [|[fetched now] rest Hstep Hrest IH];
      intros fs Hm; simpl; [exact Hm|].
    apply IH. now apply update_song_monotone.
  - intros. eapply update_song_rejects_smaller; eauto.
  - intros. now apply ingest_appends_changed.
Qed.

Lemma update_song_length (meta : song_meta) (fetched : option Z) (now : aware)
    (fs : files) :
  let r := update_song meta fetched now fs in
  length (load_json (json_file meta) (snd r))
    = if fst r then S (length (load_json (json_file meta) fs))
      else length (load_json (json_file meta) fs).
Proof.
  intros r. unfold r.
  destruct (update_song_cases meta fetched now fs) as [->|(c & -> & _ & _ & ->)];
    simpl; [reflexivity|].
  rewrite load_after_save, length_app. simpl. lia.
Qed.

(** After an accepted sample stamped [now1], a reading in the same hour
    bucket is turned away. *)
Lemma same_bucket_rejected (meta : song_meta) (c1 : Z) (f2 : option Z)
    (now1 now2 : aware) (data : list entry) (fs : files) (t : datetime) :
  parse_civil (strftime_ist (naive now1)) = Some t →
  hour_bucket t = hour_bucket (naive now1) →
  hour_bucket (naive now1) = hour_bucket (naive now2) →
  load_json (json_file meta) fs = data ++ [new_entry (naive now1) c1] →
  update_song meta f2 now2 fs = (false, fs).
Proof.
  intros Et Hb Hsame Hload.
  destruct (update_song_cases meta f2 now2 fs) as [E|(c & _ & _ & A & _)];
    [exact E|].
  exfalso. rewrite Hload in A. unfold should_append_hourly in A.
  rewrite last_snoc in A. simpl in A. rewrite Et in A.
  rewrite bool_decide_true in A by congruence. discriminate A.
Qed.

(** C3, as the code has it. Two fetch results fed to [update_song] with
    clock readings in one calendar hour add at most one sample, whatever
    the values; with readings in different hours, once the first is
    stored the second is stored too unless it is absent or smaller.  The
    polling loop of [app.py] does not look at the hour: two different
    non-empty values give two samples. *)
Theorem update_song_hour_buckets (meta : song_meta) (f1 f2 : option Z)
    (now1 now2 : aware) (fs : files) (t : datetime) :
  parse_civil (strftime_ist (naive now1)) = Some t →
  hour_bucket t = hour_bucket (naive now1) →
  let path := json_file meta in
  let r1 := update_song meta f1 now1 fs in
  let r2 := update_song meta f2 now2 (snd r1) in
  (hour_bucket (naive now1) = hour_bucket (naive now2) →
   (length (load_json path (snd r2)) <= S (length (load_json path fs)))%nat ∧
   (fst r1 = true → r2 = (false, snd r1))) ∧
  (hour_bucket (naive now1) ≠ hour_bucket (naive now2) →
   ∀ c1 c2, f1 = Some c1 → f2 = Some c2 → py_int (str_of_int c1) = Some c1 →
     fst r1 = true → c1 <= c2 →
     fst r2 = true ∧
     load_json path (snd r2)
       = load_json path fs ++ [new_entry (naive now1) c1; new_entry (naive now2) c2]) ∧
  (∀ p1 p2 t1 t2,
     p1 ≠ "" → p2 ≠ "" → p1 ≠ p2 →
     App.song_entries
       (App.ingest (Some p2) t2 (App.ingest (Some p1) t1 (App.mk_song [] [])))
       = [App.csv_entry p1 t1; App.csv_entry p2 t2]).
Proof.
  intros Et Hb path r1 r2.
  assert (Hacc : fst r1 = true → ∃ c1, f1 = Some c1 ∧
            load_json path (snd r1)
              = load_json path fs ++ [new_entry (naive now1) c1]).
  { unfold r1, path.
    destruct (update_song_cases meta f1 now1 fs) as [->|(c & -> & _ & _ & ->)];
      simpl; [discriminate|].
    intros _. exists c. split; [reflexivity | apply load_after_save]. }
  split; [|split].
  - intros Hsame.
    assert (Hrej : fst r1 = true → r2 = (false, snd r1)).
    { intros A. destruct (Hacc A) as (c1 & _ & L).
      unfold r2. eapply same_bucket_rejected; eauto. }
    split; [|exact Hrej].
    pose proof (update_song_length meta f1 now1 fs) as L1.
    pose proof (update_song_length meta f2 now2 (snd r1)) as L2.
    cbv zeta in L1, L2. fold r1 in L1, L2. fold r2 in L2. fold path in L1, L2.
    destruct (fst r1) eqn:A.
    + rewrite (Hrej eq_refl) in L2 |- *. simpl in *. lia.
    + destruct (fst r2); lia.
  - intros Hdiff c1 c2 -> -> Hrt A Hle.
    destruct (Hacc A) as (c & Ec & L). injection Ec as <-.
    unfold r2, update_song. fold path. rewrite L.
    unfold decreasing, should_append_hourly. rewrite last_snoc. simpl.
    rewrite Hrt, Et.
    assert ((c2 <? c1) = false) as -> by (apply Z.ltb_ge; lia).
    rewrite bool_decide_false by congruence. simpl.
    split; [reflexivity|].
    rewrite load_after_save, <- app_assoc. reflexivity.
  - intros p1 p2 t1 t2 H1 H2 H12.
    rewrite ingest_appends_changed; [|exact H2|].
    + rewrite ingest_appends_changed; [reflexivity|exact H1|].
      simpl. discriminate.
    + rewrite ingest_appends_changed; [|exact H1|simpl; discriminate].
      simpl. intros l [= <-]. exact H12.
Qed.

End Sequences.

Section SequenceExamples.
Import UpdateCounts Samples RefLib.

Lemma update_song_values_monotone_witness :
  series_monotone
    (load_json (json_file meta0)
       (run_updates meta0
          [(Some 500, at_ 10 0 0); (Some 90, at_ 11 0 0); (Some 620, at_ 12 0 0)]
          ∅)).
Proof.
  refine (proj1 (update_song_values_monotone meta0
            [(Some 500, at_ 10 0 0); (Some 90, at_ 11 0 0); (Some 620, at_ 12 0 0)]
            ∅ _ _)).
  - repeat constructor; intros c [= <-]; vm_compute; reflexivity.
  - split; [constructor|]. intros i a b va vb Ha. vm_compute in Ha. discriminate Ha.
Defined.

(** The polling loop stores 90 after 100. *)
Lemma poller_stores_decrease : ¬ Claimed.poller_values_monotone.
Proof.
  intros C.
  destruct (C [(Some "100", at_ 10 0 0); (Some "90", at_ 10 15 0)]) as [_ C2].
  specialize (C2 0%nat (mk_entry "2024-01-01 10:00:00 IST" "100")
                (mk_entry "2024-01-01 10:15:00 IST" "90") 100 90
                eq_refl eq_refl eq_refl eq_refl).
  lia.
Qed.

Lemma update_song_hour_buckets_witness :
  Nat.le
    (length (load_json (json_file meta0)
       (snd (update_song meta0 (Some 501) (at_ 10 5 0)
          (snd (update_song meta0 (Some 500) (at_ 10 0 0) ∅))))))
    (S (length (load_json (json_file meta0) ∅))).
Proof.
  refine (proj1 (proj1 (update_song_hour_buckets meta0 (Some 500) (Some 501)
            (at_ 10 0 0) (at_ 10 5 0) ∅ (naive (at_ 10 0 0)) _ _) _));
    vm_compute; reflexivity.
Defined.

(** The polling loop stores two samples of one hour. *)
Lemma poller_two_samples_in_hour : ¬ Claimed.poller_one_sample_per_hour.
Proof.
  intros C.
  specialize (C (Some "500") (Some "501") (at_ 10 0 0) (at_ 10 15 0)
                (App.mk_song [] []) eq_refl).
  vm_compute in C. lia.
Qed.

(** The end-to-end scenario of the design document: 500 at 10:00 is
    stored, 500 at 10:05 is turned away, 620 at 11:10 is stored, and the
    hour increase is then 120. *)
Example end_to_end_scenario :
  let fs := run_updates meta0
              [(Some 500, at_ 10 0 0); (Some 500, at_ 10 5 0); (Some 620, at_ 11 10 0)]
              ∅ in
  load_json (json_file meta0) fs = [s_1000; s_1110] ∧
  song_summary (at_ 11 10 0) (at_ 11 10 0) (load_json (json_file meta0) fs)
    = Stats (mk_stats 620 (Some 500) (Some 120) (Some 500) (Some 120) 2).
Proof. vm_compute. split; reflexivity. Qed.

End SequenceExamples.

(** ** The ordering of datetimes *)

Section Ordering.

Lemma lex_cmp_refl (a : list Z) : lex_cmp a a = Eq.
Proof. induction a as [|x a IH]; simpl; [reflexivity|]. now rewrite Z.compare_refl. Qed.

Lemma lex_cmp_asym (a b : list Z) : lex_cmp a b = Lt → lex_cmp b a = Gt.
Proof.
  revert b. induction a as [|x a IH]; intros [|y b]; simpl; try congruence.
  rewrite (Z.compare_antisym x y).
  destruct (x ?= y); simpl; auto; congruence.
Qed.

Lemma lex_cmp_ge_trans (a b c : list Z) :
  lex_cmp a b ≠ Lt → lex_cmp b c ≠ Lt → lex_cmp a c ≠ Lt.
Proof.
  revert b c. induction a as [|x a IH]; intros [|y b] [|z c]; simpl;
    try congruence.
  destruct (Z.compare_spec x y), (Z.compare_spec y z), (Z.compare_spec x z);
    subst; try lia; try congruence; eauto.
Qed.

Lemma dt_ltb_irrefl (a : datetime) : dt_ltb a a = false.
Proof. unfold dt_ltb. now rewrite lex_cmp_refl. Qed.

Lemma dt_ltb_asym (a b : datetime) : dt_ltb a b = true → dt_ltb b a = false.
Proof.
  unfold dt_ltb. intros E.
  destruct (lex_cmp (dt_fields a) (dt_fields b)) eqn:C; try discriminate.
  now rewrite (lex_cmp_asym _ _ C).
Qed.

Lemma dt_ltb_false (a b : datetime) :
  dt_ltb a b = false ↔ lex_cmp (dt_fields a) (dt_fields b) ≠ Lt.
Proof. unfold dt_ltb. destruct (lex_cmp _ _); split; congruence. Qed.

Import GapSpec.

Lemma key_le_refl (x : datetime * entry) : key_le x x.
Proof. apply dt_ltb_irrefl. Qed.

Lemma key_le_trans (x y z : datetime * entry) :
  key_le x y → key_le y z → key_le x z.
Proof.
  unfold key_le. rewrite !dt_ltb_false. intros Hxy Hyz.
  eapply lex_cmp_ge_trans; eauto.
Qed.

End Ordering.

(** ** The stable sort *)

Section Sorting.
Import Convert GapSpec.

Lemma insert_by_key_perm (x : datetime * entry) (l : list (datetime * entry)) :
  insert_by_key x l ≡ₚ x :: l.
Proof.
  induction l as [|y l IH]; simpl; [reflexivity|].
  destruct (dt_ltb y.1 x.1); [|reflexivity].
  rewrite IH. apply Permutation_swap.
Qed.

Lemma sort_by_key_perm (l : list (datetime * entry)) : sort_by_key l ≡ₚ l.
Proof.
  induction l as [|x l IH]; simpl; [reflexivity|].
  now rewrite insert_by_key_perm, IH.
Qed.

Lemma insert_by_key_sorted (x : datetime * entry) (l : list (datetime * entry)) :
  StronglySorted key_le l → StronglySorted key_le (insert_by_key x l).
Proof.
  induction 1 as [|y l Hs IH Hall]; simpl.
  - repeat constructor.
  - destruct (dt_ltb y.1 x.1) eqn:E.
    + constructor; [exact IH|].
      rewrite insert_by_key_perm. constructor; [|exact Hall].
      unfold key_le. now apply dt_ltb_asym.
    + constructor; [now constructor|].
      constructor; [exact E|].
      eapply Forall_impl; [exact Hall|].
      intros z Hz. eapply key_le_trans; [exact E | exact Hz].
Qed.

Lemma sort_by_key_sorted (l : list (datetime * entry)) :
  StronglySorted key_le (sort_by_key l).
Proof.
  induction l as [|x l IH]; simpl; [constructor|].
  now apply insert_by_key_sorted.
Qed.

(** Sorting a list that is in order changes nothing. *)
Lemma sort_by_key_sorted_id (l : list (datetime * entry)) :
  StronglySorted key_le l → sort_by_key l = l.
Proof.
  induction 1 as [|x l Hs IH Hall]; simpl; [reflexivity|].
  rewrite IH. destruct Hall as [|y l' Hxy _]; simpl; [reflexivity|].
  unfold key_le in Hxy. now rewrite Hxy.
Qed.

End Sorting.

(** ** The scan of the gap filter *)

Section GapScan.
Context `{PyLib}.
Import Convert GapSpec.

(** The test of the loop is the spacing of the design document. *)
Lemma far_enough_spaced (gap_minutes : Z) (t k : datetime) :
  far_enough gap_minutes t k = spaced gap_minutes t k.
Proof.
  unfold far_enough, spaced, total_seconds.
  apply eq_true_iff_eq. rewrite Qle_bool_iff, Z.leb_le.
  unfold Qle, Qdiv, Qmult, Qinv, inject_Z. simpl. lia.
Qed.

Lemma last_key_cons (lk : option datetime) (p : datetime * entry)
    (l : list (datetime * entry)) :
  last_key lk (p :: l) = last_key (Some p.1) l.
Proof.
  unfold last_key. rewrite last_cons. now destruct (last l).
Qed.

Lemma keep_from_Forall (P : datetime * entry → Prop) (gap_minutes : Z)
    (lk : option datetime) (l : list (datetime * entry)) :
  Forall P l → Forall P (keep_from gap_minutes lk l).
Proof.
  intros Hl. revert lk. induction Hl as [|p l Hp Hl IH]; intros lk; simpl.
  - constructor.
  - destruct lk as [k|]; [destruct (spaced gap_minutes p.1 k)|]; auto.
Qed.

Lemma keep_from_sorted (gap_minutes : Z) (lk : option datetime)
    (l : list (datetime * entry)) :
  StronglySorted key_le l → StronglySorted key_le (keep_from gap_minutes lk l).
Proof.
  intros Hl. revert lk. induction Hl as [|p l Hs IH Hall]; intros lk; simpl.
  - constructor.
  - destruct lk as [k|]; [destruct (spaced gap_minutes p.1 k)|]; auto;
      constructor; auto using keep_from_Forall.
Qed.

Lemma keep_from_elem_of (gap_minutes : Z) (lk : option datetime)
    (l : list (datetime * entry)) (p : datetime * entry) :
  p ∈ keep_from gap_minutes lk l → p ∈ l.
Proof.
  revert lk. induction l as [|q l IH]; intros lk; simpl; [auto|].
  rewrite elem_of_cons.
  destruct lk as [k|]; [destruct (spaced gap_minutes q.1 k)|];
    rewrite ?elem_of_cons; intros Hin;
    try (destruct Hin as [Hin|Hin]; [now left|]); right; eapply IH; exact Hin.
Qed.

(** The first sample is always kept. *)
Lemma keep_from_first (gap_minutes : Z) (p : datetime * entry)
    (l : list (datetime * entry)) :
  keep_from gap_minutes None (p :: l) = p :: keep_from gap_minutes (Some p.1) l.
Proof. reflexivity. Qed.

(** Scanning what a scan kept keeps all of it. *)
Lemma keep_from_keep (gap_minutes : Z) (lk : option datetime)
    (l : list (datetime * entry)) :
  keep_from gap_minutes lk (keep_from gap_minutes lk l)
    = keep_from gap_minutes lk l.
Proof.
  revert lk. induction l as [|p l IH]; intros lk; simpl; [reflexivity|].
  destruct lk as [k|].
  - destruct (spaced gap_minutes p.1 k) eqn:E; [|apply IH].
    simpl. rewrite E. f_equal. apply IH.
  - simpl. f_equal. apply IH.
Qed.

Lemma keep_from_app (gap_minutes : Z) (lk : option datetime)
    (l1 l2 : list (datetime * entry)) :
  keep_from gap_minutes lk (l1 ++ l2)
    = keep_from gap_minutes lk l1
      ++ keep_from gap_minutes (last_key lk (keep_from gap_minutes lk l1)) l2.
Proof.
  revert lk. induction l1 as [|p l1 IH]; intros lk; simpl; [reflexivity|].
  destruct lk as [k|].
  - destruct (spaced gap_minutes p.1 k); [|apply IH].
    rewrite last_key_cons. simpl. f_equal. apply IH.
  - rewrite last_key_cons. simpl. f_equal. apply IH.
Qed.

(** The loop of [filter_hour_gaps] computes [keep_from]. *)
Lemma scan_keep_from (gap_minutes : Z) (srt : list (datetime * entry))
    (filtered : list entry) (lk : option datetime) :
  Forall decorated srt →
  scan gap_minutes (srt.*2) (filtered, lk)
    = Some (filtered ++ (keep_from gap_minutes lk srt).*2,
            last_key lk (keep_from gap_minutes lk srt)).
Proof.
  intros Hd. revert filtered lk.
  induction Hd as [|p l Hp Hl IH]; intros filtered lk.
  - simpl. now rewrite app_nil_r.
  - unfold decorated, civil_time in Hp.
    rewrite fmap_cons.
    change (scan gap_minutes (p.2 :: l.*2) (filtered, lk))
      with (scan_step gap_minutes (filtered, lk) p.2 ≫= scan gap_minutes (l.*2)).
    unfold scan_step, parse_ts. rewrite Hp.
    destruct lk as [k|]; cbn [mbind option_bind keep_from].
    + rewrite far_enough_spaced.
      destruct (spaced gap_minutes p.1 k); cbn [mbind option_bind].
      * rewrite IH, last_key_cons, fmap_cons, <- app_assoc. reflexivity.
      * apply IH.
    + rewrite IH, last_key_cons, fmap_cons, <- app_assoc. reflexivity.
Qed.

(** Sorting by parsed time: the decorated list behind [sorted]. *)
Lemma sorted_decorated (entries : list entry) :
  Forall (λ e, is_Some (civil_time e)) entries →
  ∃ srt, sorted (λ e, parse_ts (timestamp e)) entries = Some (srt.*2) ∧
         sorted_view entries srt.
Proof.
  intros Hp.
  destruct (mapM_is_Some_2 (λ e, parse_ts (timestamp e)) entries Hp) as [keys Ek].
  pose proof (mapM_Some_1 _ _ _ Ek) as F2.
  exists (sort_by_key (zip keys entries)).
  unfold sorted. rewrite Ek. simpl. split; [reflexivity|].
  pose proof (Forall2_length _ _ _ F2) as Hlen.
  split; [|split].
  - rewrite sort_by_key_perm. rewrite snd_zip by lia. reflexivity.
  - rewrite sort_by_key_perm.
    clear Ek Hp Hlen. induction F2 as [|e k l ks Hek _ IH]; simpl; constructor; auto.
  - apply sort_by_key_sorted.
Qed.

(** On a decorated list in order, [sorted] is the identity. *)
Lemma sorted_of_sorted (srt : list (datetime * entry)) :
  Forall decorated srt → StronglySorted key_le srt →
  sorted (λ e, parse_ts (timestamp e)) (srt.*2) = Some (srt.*2).
Proof.
  intros Hd Hs. unfold sorted.
  assert (Ek : mapM (λ e, parse_ts (timestamp e)) (srt.*2) = Some (srt.*1)).
  { apply mapM_Some_2. clear Hs.
    induction Hd as [|p l Hp _ IH]; simpl; constructor; auto. }
  rewrite Ek. simpl. rewrite zip_fst_snd, sort_by_key_sorted_id by exact Hs.
  reflexivity.
Qed.

(** The early return on an empty input agrees with the general path. *)
Lemma filter_hour_gaps_eq (gap_minutes : Z) (entries : list entry) :
  filter_hour_gaps entries gap_minutes
    = (entries_sorted ← sorted (λ e, parse_ts (timestamp e)) entries;
       st ← scan gap_minutes entries_sorted ([], None);
       Some (ensure_newest st.1 entries_sorted)).
Proof. destruct entries; reflexivity. Qed.

(** [filter_hour_gaps] on a decorated list in order. *)
Lemma filter_hour_gaps_sorted (gap_minutes : Z) (srt : list (datetime * entry)) :
  Forall decorated srt → StronglySorted key_le srt →
  filter_hour_gaps (srt.*2) gap_minutes
    = Some (ensure_newest ((keep_from gap_minutes None srt).*2) (srt.*2)).
Proof.
  intros Hd Hs. rewrite filter_hour_gaps_eq.
  rewrite sorted_of_sorted by assumption. cbn [mbind option_bind].
  rewrite scan_keep_from by assumption. reflexivity.
Qed.

(** [filter_hour_gaps] in terms of the sorted view. *)
Lemma filter_hour_gaps_view (gap_minutes : Z) (entries : list entry) :
  Forall (λ e, is_Some (civil_time e)) entries →
  ∃ srt, sorted_view entries srt ∧
         filter_hour_gaps entries gap_minutes
           = Some (ensure_newest ((keep_from gap_minutes None srt).*2) (srt.*2)).
Proof.
  intros Hp. destruct (sorted_decorated entries Hp) as (srt & Es & V).
  exists srt. split; [exact V|].
  destruct V as (Hperm & Hd & Hs).
  rewrite filter_hour_gaps_eq, Es. cbn [mbind option_bind].
  rewrite scan_keep_from by assumption. reflexivity.
Qed.

End GapScan.

(** ** The gap filter *)

Section GapFilter.
Context `{PyLib}.
Import Convert GapSpec.

Lemma ensure_newest_eq (filtered rest : list entry) (f l : entry) :
  last filtered = Some f →
  ensure_newest filtered (rest ++ [l])
    = if bool_decide (timestamp f = timestamp l) then filtered
      else filtered ++ [l].
Proof.
  intros Ef. unfold ensure_newest. rewrite Ef, last_snoc.
  destruct (decide (timestamp f = timestamp l)) as [E|E].
  - rewrite bool_decide_false by auto. now rewrite bool_decide_true.
  - rewrite bool_decide_true by auto. now rewrite bool_decide_false.
Qed.

Lemma ensure_newest_same (l : list entry) : ensure_newest l l = l.
Proof.
  unfold ensure_newest. destruct (last l); [|reflexivity].
  now rewrite bool_decide_false by auto.
Qed.

Lemma NoDup_fmap_eq {A B : Type} (f : A → B) (l : list A) (x y : A) :
  NoDup (f <$> l) → x ∈ l → y ∈ l → f x = f y → x = y.
Proof.
  induction l as [|a l IH]; intros Hnd Hx Hy E.
  - now apply elem_of_nil in Hx.
  - rewrite fmap_cons in Hnd. apply NoDup_cons in Hnd as [Hna Hnd].
    apply elem_of_cons in Hx as [->|Hx]; apply elem_of_cons in Hy as [->|Hy];
      auto.
    + exfalso. apply Hna. rewrite E. now apply list_elem_of_fmap_2.
    + exfalso. apply Hna. rewrite <- E. now apply list_elem_of_fmap_2.
Qed.

(** X23. What [filter_hour_gaps] computes.  On a non-empty series whose
    timestamps all parse it sorts by time ascending, keeps the first
    sample, keeps each later sample exactly when it lies at least
    [gap_minutes - 5] minutes (55 by default) after the last kept one,
    and appends the newest sample when the last kept sample carries
    another timestamp text.  The output starts with the first sample and
    ends with a sample that carries the newest timestamp; that sample is
    the newest one itself when no two samples share a timestamp text. *)
Theorem filter_hour_gaps_spec (gap_minutes : Z) (entries : list entry) :
  entries ≠ [] →
  Forall (λ e, is_Some (civil_time e)) entries →
  ∃ srt first newest k,
    sorted_view entries srt ∧
    head (srt.*2) = Some first ∧ last (srt.*2) = Some newest ∧
    last ((keep_from gap_minutes None srt).*2) = Some k ∧
    let kept := (keep_from gap_minutes None srt).*2 in
    let out := if bool_decide (timestamp k = timestamp newest) then kept
               else kept ++ [newest] in
    filter_hour_gaps entries gap_minutes = Some out ∧
    head out = Some first ∧
    (∃ o, last out = Some o ∧ timestamp o = timestamp newest) ∧
    (NoDup (timestamp <$> entries) → last out = Some newest).
Proof.
  intros Hne Hp.
  destruct (filter_hour_gaps_view gap_minutes entries Hp) as (srt & V & Ef).
  pose proof V as (Hperm & Hd & Hs).
  destruct srt as [|p srt'] eqn:Esrt.
  { simpl in Hperm. symmetry in Hperm. apply Permutation_nil_r in Hperm. congruence. }
  rewrite <- Esrt in *.
  destruct (last srt) as [L|] eqn:EL; [|apply last_None in EL; congruence].
  destruct (proj1 (last_Some _ _) EL) as [ini Eini].
  assert (Ek : ∃ q, last (keep_from gap_minutes None srt) = Some q).
  { rewrite Esrt, keep_from_first. apply last_is_Some. discriminate. }
  destruct Ek as [q Eq].
  exists srt, p.2, L.2, q.2.
  split; [exact V|].
  split; [now rewrite Esrt|].
  split; [now rewrite fmap_last, EL|].
  split; [now rewrite fmap_last, Eq|].
  cbv zeta.
  assert (Eout : filter_hour_gaps entries gap_minutes
            = Some (if bool_decide (timestamp q.2 = timestamp L.2)
                    then (keep_from gap_minutes None srt).*2
                    else (keep_from gap_minutes None srt).*2 ++ [L.2])).
  { rewrite Ef. f_equal. rewrite Eini at 2. rewrite fmap_app. simpl.
    apply ensure_newest_eq. now rewrite fmap_last, Eq. }
  split; [exact Eout|].
  assert (Hhead : head ((keep_from gap_minutes None srt).*2) = Some p.2).
  { now rewrite Esrt, keep_from_first. }
  split; [|split].
  - destruct (bool_decide _); [exact Hhead|].
    rewrite head_app, Hhead. reflexivity.
  - destruct (bool_decide (timestamp q.2 = timestamp L.2)) eqn:B.
    + apply bool_decide_eq_true in B. exists q.2.
      split; [now rewrite fmap_last, Eq | exact B].
    + exists L.2. split; [apply last_snoc | reflexivity].
  - intros Hnd.
    destruct (bool_decide (timestamp q.2 = timestamp L.2)) eqn:B;
      [|apply last_snoc].
    apply bool_decide_eq_true in B.
    rewrite fmap_last, Eq. simpl. f_equal.
    apply (NoDup_fmap_eq timestamp (srt.*2)); [|  | |exact B].
    * now rewrite Hperm.
    * apply list_elem_of_fmap_2.
      eapply keep_from_elem_of, last_Some_elem_of, Eq.
    * apply list_elem_of_fmap_2. now apply last_Some_elem_of.
Qed.

Lemma dt_sub_diag (t : datetime) : dt_sub t t = 0.
Proof. unfold dt_sub, mk_timedelta. lia. Qed.

(** C4. The closing check compares timestamp texts, not samples.  On two
    samples [a] and [b] that carry one parseable timestamp text the sorted
    series is [a; b], the scan keeps [a] alone for every gap above five
    minutes, and the check finds the timestamp of the newest sample in
    place: [filter_hour_gaps] returns [a] alone, so the newest sample [b]
    is missing from the output whenever its play count is not that of
    [a]. *)
Theorem filter_hour_gaps_drops_duplicate (a b : entry) (gap_minutes : Z) :
  is_Some (civil_time a) →
  timestamp b = timestamp a →
  5 < gap_minutes →
  sorted (λ e, parse_ts (timestamp e)) [a; b] = Some [a; b] ∧
  last [a; b] = Some b ∧
  filter_hour_gaps [a; b] gap_minutes = Some [a].
Proof.
  intros [t Et] Eb Hg.
  assert (Ea : parse_ts (timestamp a) = Some t) by exact Et.
  assert (Eb' : parse_ts (timestamp b) = Some t) by (rewrite Eb; exact Et).
  assert (Es : sorted (λ e, parse_ts (timestamp e)) [a; b] = Some [a; b]).
  { unfold sorted. cbn [mapM]. rewrite Ea, Eb'. cbn. now rewrite dt_ltb_irrefl. }
  split; [exact Es|]. split; [reflexivity|].
  unfold filter_hour_gaps. rewrite Es. cbn [mbind option_bind scan scan_step].
  rewrite Ea. cbn [mbind option_bind]. unfold scan_step.
  rewrite Eb'. cbn [mbind option_bind].
  rewrite far_enough_spaced. unfold spaced. rewrite dt_sub_diag.
  destruct (Z.leb_spec ((gap_minutes - 5) * 60 * 1000000) 0); [lia|].
  cbn [mbind option_bind fst app]. unfold ensure_newest. cbn [last].
  rewrite bool_decide_eq_false_2 by (intros E; apply E; now rewrite Eb).
  reflexivity.
Qed.

(** What [filter_hour_gaps] returns is again a decorated list in order,
    on which it returns the same. *)
Lemma ensure_newest_fixed (gap_minutes : Z) (srt : list (datetime * entry)) :
  Forall decorated srt → StronglySorted key_le srt →
  ∃ o, Forall decorated o ∧ StronglySorted key_le o ∧
       o.*2 = ensure_newest ((keep_from gap_minutes None srt).*2) (srt.*2) ∧
       ensure_newest ((keep_from gap_minutes None o).*2) (o.*2) = o.*2.
Proof.
  intros Hd Hs.
  set (K := keep_from gap_minutes None srt).
  assert (HKd : Forall decorated K) by now apply keep_from_Forall.
  assert (HKs : StronglySorted key_le K) by now apply keep_from_sorted.
  assert (HKK : keep_from gap_minutes None K = K) by apply keep_from_keep.
  assert (Hplain : ensure_newest (K.*2) (srt.*2) = K.*2 →
            ∃ o, Forall decorated o ∧ StronglySorted key_le o ∧
                 o.*2 = ensure_newest (K.*2) (srt.*2) ∧
                 ensure_newest ((keep_from gap_minutes None o).*2) (o.*2) = o.*2).
  { intros E. exists K. rewrite E, HKK. auto using ensure_newest_same. }
  destruct (last srt) as [L|] eqn:EL.
  2:{ apply last_None in EL. apply Hplain. subst srt. reflexivity. }
  destruct (proj1 (last_Some _ _) EL) as [ini Eini].
  destruct (last K) as [f|] eqn:Ef.
  2:{ apply Hplain. unfold ensure_newest. now rewrite fmap_last, Ef. }
  assert (Een : ensure_newest (K.*2) (srt.*2)
            = if bool_decide (timestamp f.2 = timestamp L.2) then K.*2
              else K.*2 ++ [L.2]).
  { replace (srt.*2) with (ini.*2 ++ [L.2])
      by (rewrite Eini, fmap_app; reflexivity).
    apply ensure_newest_eq. now rewrite fmap_last, Ef. }
  destruct (bool_decide (timestamp f.2 = timestamp L.2)) eqn:B;
    [now apply Hplain|].
  apply bool_decide_eq_false in B.
  (* the newest sample was turned away by the scan *)
  pose proof (keep_from_app gap_minutes None ini [L]) as Happ.
  rewrite <- Eini in Happ. fold K in Happ.
  set (K' := keep_from gap_minutes None ini) in *.
  assert (HX : keep_from gap_minutes (last_key None K') [L] = [] ∧ K = K').
  { destruct (keep_from gap_minutes (last_key None K') [L]) as [|x X] eqn:EX.
    - split; [reflexivity|]. now rewrite Happ, app_nil_r.
    - exfalso. assert (last K = Some L) as Hl.
      { rewrite Happ. simpl in EX.
        destruct (last_key None K') as [k|];
          [destruct (spaced gap_minutes L.1 k)|];
          try discriminate; injection EX as <- <-; apply last_snoc. }
      rewrite Ef in Hl. injection Hl as ->. now apply B. }
  destruct HX as [HX EK].
  exists (K ++ [L]).
  assert (HL : decorated L).
  { rewrite Forall_forall in Hd. apply Hd. now apply last_Some_elem_of. }
  split; [apply Forall_app; split; [exact HKd | now constructor]|].
  split.
  { apply StronglySorted_app_2; [|exact HKs|repeat constructor].
    intros x1 x2 Hx1 Hx2.
    rewrite Eini in Hs.
    apply (StronglySorted_app_1_elem_of _ _ _ _ _ Hs); [|exact Hx2].
    rewrite EK in Hx1. unfold K' in Hx1. eapply keep_from_elem_of, Hx1. }
  split.
  { rewrite Een, fmap_app. reflexivity. }
  rewrite keep_from_app, HKK, EK, HX, app_nil_r, fmap_app. simpl.
  rewrite <- EK.
  rewrite (ensure_newest_eq (K.*2) (K.*2) f.2 L.2) by now rewrite fmap_last, Ef.
  now rewrite bool_decide_false by exact B.
Qed.

(** C5. On every series whose timestamps all parse, [filter_hour_gaps]
    returns a series, and applied to that series it returns it
    unchanged. *)
Theorem filter_hour_gaps_idempotent (gap_minutes : Z) (entries : list entry) :
  Forall (λ e, is_Some (civil_time e)) entries →
  ∃ out, filter_hour_gaps entries gap_minutes = Some out ∧
         filter_hour_gaps out gap_minutes = Some out.
Proof.
  intros Hp.
  destruct (filter_hour_gaps_view gap_minutes entries Hp)
    as (srt & (_ & Hd & Hs) & Ef).
  destruct (ensure_newest_fixed gap_minutes srt Hd Hs) as (o & Hod & Hos & Eo & Efix).
  exists (o.*2). split; [now rewrite Ef, Eo|].
  rewrite filter_hour_gaps_sorted by assumption. now rewrite Efix.
Qed.

End GapFilter.

Section GapFilterExamples.
Import Convert GapSpec Samples RefLib.

Lemma filter_hour_gaps_spec_witness :
  ∃ out first,
    filter_hour_gaps [s_1110; mk_entry "2024-01-01 10:30:00 IST" "510"; s_1000] 60
      = Some out ∧
    head out = Some first.
Proof.
  destruct (filter_hour_gaps_spec 60
              [s_1110; mk_entry "2024-01-01 10:30:00 IST" "510"; s_1000])
    as (srt & first & newest & k & _ & _ & _ & _ & Eout & Ehead & _).
  - discriminate.
  - repeat constructor; eexists; vm_compute; reflexivity.
  - eexists _, first. split; [exact Eout | exact Ehead].
Defined.

Lemma filter_hour_gaps_idempotent_witness :
  ∃ out,
    filter_hour_gaps [s_1110; mk_entry "2024-01-01 10:30:00 IST" "510"; s_1000] 60
      = Some out ∧
    filter_hour_gaps out 60 = Some out.
Proof.
  apply (filter_hour_gaps_idempotent 60
           [s_1110; mk_entry "2024-01-01 10:30:00 IST" "510"; s_1000]).
  repeat constructor; eexists; vm_compute; reflexivity.
Defined.

Lemma filter_hour_gaps_drops_duplicate_witness :
  sorted (λ e, parse_ts (timestamp e)) [s_dup_a; s_dup_b] = Some [s_dup_a; s_dup_b] ∧
  last [s_dup_a; s_dup_b] = Some s_dup_b ∧
  filter_hour_gaps [s_dup_a; s_dup_b] 60 = Some [s_dup_a].
Proof.
  refine (filter_hour_gaps_drops_duplicate s_dup_a s_dup_b 60 _ _ _).
  - eexists. vm_compute. reflexivity.
  - reflexivity.
  - lia.
Defined.

(** The endpoint guarantee of the design document fails on those two
    samples. *)
Lemma gap_filter_drops_newest : ¬ Claimed.gap_filter_keeps_newest.
Proof.
  intros C.
  specialize (C [s_dup_a; s_dup_b] [s_dup_a; s_dup_b] [s_dup_a] s_dup_b
                eq_refl eq_refl eq_refl).
  apply list_elem_of_singleton in C. discriminate C.
Qed.

(** The compaction of the three samples of the witnesses. *)
Example filter_hour_gaps_run :
  filter_hour_gaps [s_1110; mk_entry "2024-01-01 10:30:00 IST" "510"; s_1000] 60
    = Some [s_1000; s_1110].
Proof. vm_compute. reflexivity. Qed.

End GapFilterExamples.

(** ** More on the gap filter: what the output is made of *)

Section GapFilterShape.
Context `{PyLib}.
Import Convert GapSpec.

Lemma keep_from_sublist (gap_minutes : Z) (lk : option datetime)
    (l : list (datetime * entry)) :
  keep_from gap_minutes lk l `sublist_of` l.
Proof.
  revert lk. induction l as [|p l IH]; intros lk; simpl; [constructor|].
  destruct lk as [k|]; [destruct (spaced gap_minutes p.1 k)|];
    try (apply sublist_skip; apply IH); apply sublist_cons; apply IH.
Qed.

(** The two ways the closing [if] can go: nothing is appended, or the newest
    sample, which the scan had turned away, is put after what was kept. *)
Lemma ensure_newest_cases (gap_minutes : Z) (srt : list (datetime * entry)) :
  let K := keep_from gap_minutes None srt in
  ensure_newest (K.*2) (srt.*2) = K.*2 ∨
  ∃ ini L f,
    srt = ini ++ [L] ∧ K = keep_from gap_minutes None ini ∧
    last K = Some f ∧ timestamp f.2 ≠ timestamp L.2 ∧
    keep_from gap_minutes (last_key None K) [L] = [] ∧
    ensure_newest (K.*2) (srt.*2) = (K ++ [L]).*2.
Proof.
  intros K.
  destruct (last srt) as [L|] eqn:EL.
  2:{ left. apply last_None in EL. subst srt. reflexivity. }
  destruct (proj1 (last_Some _ _) EL) as [ini Eini].
  destruct (last K) as [f|] eqn:Ef.
  2:{ left. unfold ensure_newest. now rewrite fmap_last, Ef. }
  assert (Een : ensure_newest (K.*2) (srt.*2)
            = if bool_decide (timestamp f.2 = timestamp L.2) then K.*2
              else K.*2 ++ [L.2]).
  { replace (srt.*2) with (ini.*2 ++ [L.2])
      by (rewrite Eini, fmap_app; reflexivity).
    apply ensure_newest_eq. now rewrite fmap_last, Ef. }
  destruct (bool_decide (timestamp f.2 = timestamp L.2)) eqn:B; [now left|].
  apply bool_decide_eq_false in B. right.
  pose proof (keep_from_app gap_minutes None ini [L]) as Happ.
  rewrite <- Eini in Happ. fold K in Happ.
  destruct (keep_from gap_minutes
              (last_key None (keep_from gap_minutes None ini)) [L])
    as [|x X] eqn:EX.
  - rewrite app_nil_r in Happ. exists ini, L, f.
    rewrite <- Happ in EX. rewrite Een, fmap_app. auto 10.
  - exfalso. assert (last K = Some L) as Hl.
    { rewrite Happ. simpl in EX.
      destruct (last_key None (keep_from gap_minutes None ini)) as [k|];
        [destruct (spaced gap_minutes L.1 k)|];
        try discriminate; injection EX as <- <-; apply last_snoc. }
    rewrite Ef in Hl. injection Hl as ->. now apply B.
Qed.

(** What comes out is a decorated list [o] that is a sublist of the sorted
    input. *)
Lemma filter_output_view (gap_minutes : Z) (srt : list (datetime * entry)) :
  ∃ o, o `sublist_of` srt ∧
       o.*2 = ensure_newest ((keep_from gap_minutes None srt).*2) (srt.*2) ∧
       (length o <= S (length (keep_from gap_minutes None srt)))%nat ∧
       keep_from gap_minutes None srt `prefix_of` o.
Proof.
  destruct (ensure_newest_cases gap_minutes srt)
    as [E|(ini & L & f & Es & EK & _ & _ & _ & E)].
  - exists (keep_from gap_minutes None srt).
    split; [apply keep_from_sublist|]. split; [now rewrite E|]. split; [lia|done].
  - exists (keep_from gap_minutes None srt ++ [L]).
    split; [|split; [now rewrite E|split]].
    + rewrite EK, Es. apply sublist_app; [apply keep_from_sublist|done].
    + rewrite length_app. simpl. lia.
    + now apply prefix_app_r.
Qed.

(** X1. On a series whose timestamps all parse, every sample
    [filter_hour_gaps] returns is a sample of the input, no more often than
    it occurs there; in particular it returns at most as many samples as it
    was given. *)
Theorem filter_hour_gaps_from_input (gap_minutes : Z) (entries : list entry) :
  Forall (λ e, is_Some (civil_time e)) entries →
  ∃ out, filter_hour_gaps entries gap_minutes = Some out ∧
         out ⊆+ entries ∧ (length out <= length entries)%nat.
Proof.
  intros Hp.
  destruct (filter_hour_gaps_view gap_minutes entries Hp)
    as (srt & (Hperm & _ & _) & Ef).
  destruct (filter_output_view gap_minutes srt) as (o & Hsub & Eo & _).
  exists (o.*2). split; [now rewrite Ef, Eo|].
  assert (Hm : o.*2 ⊆+ entries).
  { rewrite <- Hperm. apply sublist_submseteq. now apply fmap_sublist. }
  split; [exact Hm | now apply submseteq_length].
Qed.

Lemma sublist_Forall {A : Type} (P : A → Prop) (l k : list A) :
  l `sublist_of` k → Forall P k → Forall P l.
Proof.
  intros Hsub Hk. rewrite Forall_forall in Hk |- *.
  intros x Hx. apply Hk. eapply elem_of_sublist; eauto.
Qed.

Lemma StronglySorted_lookup_lt {A : Type} (R : relation A) (l : list A)
    (i j : nat) (x y : A) :
  StronglySorted R l → (i < j)%nat → l !! i = Some x → l !! j = Some y → R x y.
Proof.
  intros Hs. revert i j. induction Hs as [|a l Hs IH Hall]; intros i j Hij Hx Hy.
  - now rewrite lookup_nil in Hx.
  - destruct j as [|j]; [lia|]. simpl in Hy. destruct i as [|i].
    + simpl in Hx. injection Hx as <-.
      rewrite Forall_forall in Hall. apply Hall.
      eapply list_elem_of_lookup_2, Hy.
    + simpl in Hx. apply (IH i j); [lia|exact Hx|exact Hy].
Qed.

Lemma sublist_sorted {A : Type} (R : relation A) (l k : list A) :
  l `sublist_of` k → StronglySorted R k → StronglySorted R l.
Proof.
  induction 1 as [|x l k Hsub IH|x l k Hsub IH]; intros Hs.
  - constructor.
  - apply StronglySorted_cons in Hs as [Hall Hs].
    constructor; [now apply IH|]. eapply sublist_Forall; eauto.
  - apply StronglySorted_cons in Hs as [_ Hs]. now apply IH.
Qed.

(** X2. The samples [filter_hour_gaps] returns are in ascending order of
    time: a sample is never earlier than one that stands before it. *)
Theorem filter_hour_gaps_ascending (gap_minutes : Z) (entries : list entry) :
  Forall (λ e, is_Some (civil_time e)) entries →
  ∃ out, filter_hour_gaps entries gap_minutes = Some out ∧
    ∀ (i j : nat) a b ta tb,
      (i < j)%nat → out !! i = Some a → out !! j = Some b →
      civil_time a = Some ta → civil_time b = Some tb →
      dt_ltb tb ta = false.
Proof.
  intros Hp.
  destruct (filter_hour_gaps_view gap_minutes entries Hp)
    as (srt & (_ & Hd & Hs) & Ef).
  destruct (filter_output_view gap_minutes srt) as (o & Hsub & Eo & _).
  exists (o.*2). split; [now rewrite Ef, Eo|].
  intros i j a b ta tb Hij Ha Hb Eta Etb.
  rewrite list_lookup_fmap in Ha, Hb.
  destruct (o !! i) as [pa|] eqn:Epa; [|discriminate].
  destruct (o !! j) as [pb|] eqn:Epb; [|discriminate].
  simpl in Ha, Hb. injection Ha as <-. injection Hb as <-.
  assert (Hod : Forall decorated o) by (eapply sublist_Forall; eauto).
  rewrite Forall_forall in Hod.
  pose proof (Hod pa (list_elem_of_lookup_2 _ _ _ Epa)) as Da.
  pose proof (Hod pb (list_elem_of_lookup_2 _ _ _ Epb)) as Db.
  unfold decorated in Da, Db. rewrite Da in Eta. rewrite Db in Etb.
  injection Eta as <-. injection Etb as <-.
  apply (StronglySorted_lookup_lt key_le o i j pa pb); auto.
  eapply sublist_sorted; eauto.
Qed.

(** Neighbours among the kept samples are spaced. *)
Lemma keep_from_head_spaced (gap_minutes : Z) (k : datetime)
    (l : list (datetime * entry)) (h : datetime * entry) :
  head (keep_from gap_minutes (Some k) l) = Some h →
  spaced gap_minutes h.1 k = true.
Proof.
  induction l as [|p l IH]; simpl; [discriminate|].
  destruct (spaced gap_minutes p.1 k) eqn:E; [|exact IH].
  simpl. now intros [= <-].
Qed.

Lemma keep_from_neighbours (gap_minutes : Z) (lk : option datetime)
    (l : list (datetime * entry)) (i : nat) (a b : datetime * entry) :
  keep_from gap_minutes lk l !! i = Some a →
  keep_from gap_minutes lk l !! S i = Some b →
  spaced gap_minutes b.1 a.1 = true.
Proof.
  revert lk i. induction l as [|p l IH]; intros lk i; simpl.
  - now rewrite lookup_nil.
  - assert (Hkept : ∀ i,
      (p :: keep_from gap_minutes (Some p.1) l) !! i = Some a →
      (p :: keep_from gap_minutes (Some p.1) l) !! S i = Some b →
      spaced gap_minutes b.1 a.1 = true).
    { intros [|i'] Ha Hb; simpl in Ha, Hb.
      - injection Ha as <-. apply (keep_from_head_spaced _ _ l).
        now rewrite head_lookup.
      - eapply IH; eauto. }
    destruct lk as [k|]; [destruct (spaced gap_minutes p.1 k)|];
      [apply Hkept | apply IH | apply Hkept].
Qed.

(** X3. Among the samples [filter_hour_gaps] returns, any two neighbours,
    the final pair apart, lie at least [gap_minutes - 5] minutes apart (55
    by default): only the newest sample may follow its predecessor more
    closely. *)
Theorem filter_hour_gaps_spacing (gap_minutes : Z) (entries : list entry) :
  Forall (λ e, is_Some (civil_time e)) entries →
  ∃ out, filter_hour_gaps entries gap_minutes = Some out ∧
    ∀ (i : nat) a b ta tb,
      (S (S i) < length out)%nat →
      out !! i = Some a → out !! S i = Some b →
      civil_time a = Some ta → civil_time b = Some tb →
      (gap_minutes - 5) * 60 * 1000000 <= dt_sub tb ta.
Proof.
  intros Hp.
  destruct (filter_hour_gaps_view gap_minutes entries Hp)
    as (srt & (_ & Hd & Hs) & Ef).
  destruct (filter_output_view gap_minutes srt) as (o & Hsub & Eo & Hlen & Hpre).
  exists (o.*2). split; [now rewrite Ef, Eo|].
  intros i a b ta tb Hi Ha Hb Eta Etb.
  rewrite length_fmap in Hi.
  rewrite list_lookup_fmap in Ha, Hb.
  destruct (o !! i) as [pa|] eqn:Epa; [|discriminate].
  destruct (o !! S i) as [pb|] eqn:Epb; [|discriminate].
  simpl in Ha, Hb. injection Ha as <-. injection Hb as <-.
  assert (Hod : Forall decorated o) by (eapply sublist_Forall; eauto).
  rewrite Forall_forall in Hod.
  pose proof (Hod pa (list_elem_of_lookup_2 _ _ _ Epa)) as Da.
  pose proof (Hod pb (list_elem_of_lookup_2 _ _ _ Epb)) as Db.
  unfold decorated in Da, Db. rewrite Da in Eta. rewrite Db in Etb.
  injection Eta as <-. injection Etb as <-.
  destruct Hpre as [tl Etl].
  assert (HKa : keep_from gap_minutes None srt !! i = Some pa).
  { rewrite Etl in Epa. rewrite lookup_app_l in Epa by lia. exact Epa. }
  assert (HKb : keep_from gap_minutes None srt !! S i = Some pb).
  { rewrite Etl in Epb. rewrite lookup_app_l in Epb by lia. exact Epb. }
  pose proof (keep_from_neighbours _ _ _ _ _ _ HKa HKb) as Sp.
  unfold spaced in Sp. now apply Z.leb_le in Sp.
Qed.

Lemma keep_from_all (gap_minutes : Z) (lk : option datetime)
    (l : list (datetime * entry)) :
  (∀ k h, lk = Some k → head l = Some h → spaced gap_minutes h.1 k = true) →
  (∀ (i : nat) a b, l !! i = Some a → l !! S i = Some b →
     spaced gap_minutes b.1 a.1 = true) →
  keep_from gap_minutes lk l = l.
Proof.
  revert lk. induction l as [|p l IH]; intros lk Hhead Hnb; simpl; [reflexivity|].
  assert (Etl : keep_from gap_minutes (Some p.1) l = l).
  { apply IH.
    - intros k h [= <-] Hh. apply (Hnb 0%nat p h); [reflexivity|].
      simpl. now rewrite <- head_lookup.
    - intros i a b Ha Hb. apply (Hnb (S i) a b); assumption. }
  destruct lk as [k|]; [|now rewrite Etl].
  rewrite (Hhead k p eq_refl eq_refl). now rewrite Etl.
Qed.

(** X4. A series that is listed in ascending order of time and whose
    neighbours lie at least [gap_minutes - 5] minutes apart passes
    [filter_hour_gaps] unchanged. *)
Theorem filter_hour_gaps_keeps_spaced (gap_minutes : Z)
    (srt : list (datetime * entry)) :
  Forall decorated srt →
  StronglySorted key_le srt →
  (∀ (i : nat) a b, srt !! i = Some a → srt !! S i = Some b →
     (gap_minutes - 5) * 60 * 1000000 <= dt_sub b.1 a.1) →
  filter_hour_gaps (srt.*2) gap_minutes = Some (srt.*2).
Proof.
  intros Hd Hs Hnb.
  rewrite filter_hour_gaps_sorted by assumption.
  rewrite keep_from_all.
  - now rewrite ensure_newest_same.
  - discriminate.
  - intros i a b Ha Hb. unfold spaced. apply Z.leb_le. eauto.
Qed.

End GapFilterShape.

Section GapFilterShapeExamples.
Import Convert GapSpec Samples RefLib.

Lemma filter_hour_gaps_from_input_witness :
  ∃ out,
    filter_hour_gaps [s_1110; mk_entry "2024-01-01 10:30:00 IST" "510"; s_1000] 60
      = Some out ∧
    out ⊆+ [s_1110; mk_entry "2024-01-01 10:30:00 IST" "510"; s_1000] ∧
    (length out <= 3)%nat.
Proof.
  apply (filter_hour_gaps_from_input 60
           [s_1110; mk_entry "2024-01-01 10:30:00 IST" "510"; s_1000]).
  repeat constructor; eexists; vm_compute; reflexivity.
Defined.

Lemma filter_hour_gaps_ascending_witness :
  ∃ out,
    filter_hour_gaps [s_1110; mk_entry "2024-01-01 10:30:00 IST" "510"; s_1000] 60
      = Some out ∧
    ∀ (i j : nat) a b ta tb,
      (i < j)%nat → out !! i = Some a → out !! j = Some b →
      civil_time a = Some ta → civil_time b = Some tb →
      dt_ltb tb ta = false.
Proof.
  apply (filter_hour_gaps_ascending 60
           [s_1110; mk_entry "2024-01-01 10:30:00 IST" "510"; s_1000]).
  repeat constructor; eexists; vm_compute; reflexivity.
Defined.

Lemma filter_hour_gaps_spacing_witness :
  ∃ out,
    filter_hour_gaps
      [s_0900; s_1000; mk_entry "2024-01-01 10:30:00 IST" "510"; s_1110;
       mk_entry "2024-01-01 11:20:00 IST" "630"] 60
      = Some out ∧
    ∀ (i : nat) a b ta tb,
      (S (S i) < length out)%nat →
      out !! i = Some a → out !! S i = Some b →
      civil_time a = Some ta → civil_time b = Some tb →
      55 * 60 * 1000000 <= dt_sub tb ta.
Proof.
  apply (filter_hour_gaps_spacing 60
           [s_0900; s_1000; mk_entry "2024-01-01 10:30:00 IST" "510"; s_1110;
            mk_entry "2024-01-01 11:20:00 IST" "630"]).
  repeat constructor; eexists; vm_compute; reflexivity.
Defined.

(** The run behind the witness above: the sample of 10:30 is dropped and the
    newest one, ten minutes after 11:10, is kept all the same. *)
Example filter_hour_gaps_spacing_run :
  filter_hour_gaps
    [s_0900; s_1000; mk_entry "2024-01-01 10:30:00 IST" "510"; s_1110;
     mk_entry "2024-01-01 11:20:00 IST" "630"] 60
  = Some [s_0900; s_1000; s_1110; mk_entry "2024-01-01 11:20:00 IST" "630"].
Proof. vm_compute. reflexivity. Qed.

Lemma filter_hour_gaps_keeps_spaced_witness :
  filter_hour_gaps [s_1000; s_1110] 60 = Some [s_1000; s_1110].
Proof.
  refine (filter_hour_gaps_keeps_spaced 60
            [(mk_datetime 2024 1 1 10 0 0 0, s_1000);
             (mk_datetime 2024 1 1 11 10 0 0, s_1110)] _ _ _).
  - repeat constructor.
  - repeat constructor.
  - intros [|[|i]] a b Ha Hb; simpl in Ha, Hb; try discriminate.
    injection Ha as <-. injection Hb as <-. vm_compute. discriminate.
Defined.

End GapFilterShapeExamples.

(** ** Text *)

Section Text.
Local Arguments String.append !s1 s2 : simpl nomatch.

Lemma append_assoc' (a b c : string) : (a +:+ b) +:+ c = a +:+ (b +:+ c).
Proof. induction a as [|x a IH]; simpl; [reflexivity|]. f_equal. exact IH. Qed.

Lemma append_nil_r' (a : string) : a +:+ "" = a.
Proof. induction a as [|x a IH]; simpl; [reflexivity|]. f_equal. exact IH. Qed.

Lemma length_append' (a b : string) :
  String.length (a +:+ b) = (String.length a + String.length b)%nat.
Proof. induction a as [|x a IH]; simpl; [reflexivity|]. f_equal. exact IH. Qed.

Lemma append_tmp_ne (path : string) : path +:+ ".tmp" ≠ path.
Proof.
  intros E. apply (f_equal String.length) in E.
  rewrite length_append' in E. simpl in E. lia.
Qed.

End Text.

(** ** The scraper *)

Section Scraper.
Import Scrape AppDisplay.
Context `{TextLib}.
Local Arguments String.append !s1 s2 : simpl nomatch.

Lemma codes_append (a b : string) : codes (a +:+ b) = codes a ++ codes b.
Proof.
  unfold codes. induction a as [|x a IH]; simpl; [reflexivity|].
  f_equal. exact IH.
Qed.

Lemma length_codes (s : string) : length (codes s) = String.length s.
Proof.
  unfold codes. induction s as [|x s IH]; simpl; [reflexivity|].
  f_equal. exact IH.
Qed.

Lemma digits_of_app (a b : str) : digits_of (a ++ b) = digits_of a ++ digits_of b.
Proof.
  induction a as [|x a IH]; simpl; [reflexivity|].
  destruct (isdigit x); simpl; now rewrite IH.
Qed.

Lemma digits_of_isdigit (s : str) : Forall (λ c, isdigit c = true) (digits_of s).
Proof.
  induction s as [|c s IH]; simpl; [constructor|].
  destruct (isdigit c) eqn:Ec; [constructor|]; assumption.
Qed.

Lemma digits_of_fixed (s : str) :
  Forall (λ c, isdigit c = true) s → digits_of s = s.
Proof.
  induction 1 as [|c s Hc _ IH]; simpl; [reflexivity|]. now rewrite Hc, IH.
Qed.

Lemma digits_of_idem (s : str) : digits_of (digits_of s) = digits_of s.
Proof. apply digits_of_fixed, digits_of_isdigit. Qed.

Lemma digits_of_nil (s : str) :
  digits_of s = [] ↔ Forall (λ c, isdigit c = false) s.
Proof.
  induction s as [|c s IH]; simpl; [split; [constructor|reflexivity]|].
  destruct (isdigit c) eqn:Ec.
  - split; [discriminate|]. intros Hf. apply Forall_cons in Hf as [Hc _]. congruence.
  - rewrite IH. split; [now constructor|]. intros Hf. now apply Forall_cons in Hf as [_ Hf].
Qed.

Lemma decimal_value_app (acc : Z) (a b : str) :
  decimal_value acc (a ++ b) = decimal_value acc a ≫= λ v, decimal_value v b.
Proof.
  revert acc. induction a as [|x a IH]; intros acc; simpl; [reflexivity|].
  destruct (digit_kind_of x); try reflexivity. apply IH.
Qed.

Lemma decimal_value_lower (acc v : Z) (s : str) :
  0 <= acc → decimal_value acc s = Some v → 0 <= v.
Proof.
  revert acc. induction s as [|c s IH]; intros acc Hacc; simpl.
  - now intros [= <-].
  - destruct (digit_kind_of c) as [|d|]; try discriminate. apply IH. lia.
Qed.

(** [int] accepts a text of digits exactly when each is a decimal. *)
Lemma decimal_value_Some (acc : Z) (s : str) :
  is_Some (decimal_value acc s)
  ↔ Forall (λ c, ∃ d, digit_kind_of c = DecimalDigit d) s.
Proof.
  revert acc. induction s as [|c s IH]; intros acc; simpl.
  - split; [constructor | eauto].
  - destruct (digit_kind_of c) as [|d|] eqn:Ec.
    + split; [now intros [? ?]|]. intros Hf.
      apply Forall_cons in Hf as [[? ?] _]. congruence.
    + rewrite IH. split; [constructor; eauto|].
      intros Hf. now apply Forall_cons in Hf as [_ Hf].
    + split; [now intros [? ?]|]. intros Hf.
      apply Forall_cons in Hf as [[? ?] _]. congruence.
Qed.

Lemma digits_of_decimal (s : str) :
  Forall (λ c, ∃ d, digit_kind_of c = DecimalDigit d) (digits_of s)
  ↔ Forall (λ c, digit_kind_of c ≠ OtherDigit) s.
Proof.
  induction s as [|c s IH]; simpl; [split; constructor|].
  unfold isdigit at 1. destruct (digit_kind_of c) as [|d|] eqn:Ec.
  - rewrite IH. split; [constructor; [congruence|assumption]|].
    intros Hf. now apply Forall_cons in Hf as [_ Hf].
  - split; intros Hf; apply Forall_cons in Hf as [_ Hf];
      (constructor; [first [congruence | eauto] | now apply IH]).
  - split; intros Hf; apply Forall_cons in Hf as [Hc _];
      [destruct Hc as [? ?]|]; congruence.
Qed.

Lemma decimal_value_None (acc : Z) (s : str) :
  decimal_value acc (digits_of s) = None →
  Exists (λ c, digit_kind_of c = OtherDigit) s.
Proof.
  revert acc. induction s as [|c s IH]; intros acc; simpl; [discriminate|].
  unfold isdigit at 1. destruct (digit_kind_of c) as [|d|] eqn:Ec.
  - intros E. apply Exists_cons_tl. eauto.
  - cbn [decimal_value]. rewrite Ec. intros E. apply Exists_cons_tl. eauto.
  - intros _. now apply Exists_cons_hd.
Qed.

(** X5. [parse_int_digits] returns [None] exactly on a text without an
    [isdigit] character.  It returns a number, never a negative one,
    exactly when the text has such characters, all of them decimal
    digits and no more than the limit of [int] allows; the number is the
    decimal value of those digits.  In every other case, with a digit
    that is no decimal (a superscript, say) or with too many digits, the
    call of [int] raises. *)
Theorem parse_int_digits_range (text : str) :
  match parse_int_digits text with
  | Some None => Forall (λ c, isdigit c = false) text
  | Some (Some v) =>
      0 <= v ∧ decimal_value 0 (digits_of text) = Some v ∧
      digits_of text ≠ [] ∧
      Forall (λ c, digit_kind_of c ≠ OtherDigit) text ∧
      over_limit (length (digits_of text)) = false
  | None =>
      digits_of text ≠ [] ∧
      (over_limit (length (digits_of text)) = true ∨
       Exists (λ c, digit_kind_of c = OtherDigit) text)
  end.
Proof.
  unfold parse_int_digits, int_of_digits.
  destruct (digits_of text) as [|c d] eqn:E; [now apply digits_of_nil|].
  destruct (over_limit (length (c :: d))) eqn:Eo; [split; [discriminate|now left]|].
  destruct (decimal_value 0 (c :: d)) as [v|] eqn:Ev.
  - split; [eapply decimal_value_lower; [|exact Ev]; lia|].
    split; [reflexivity|]. split; [discriminate|]. split; [|reflexivity].
    apply digits_of_decimal. rewrite E. apply decimal_value_Some with (acc := 0).
    rewrite Ev. eauto.
  - split; [discriminate|]. right.
    apply (decimal_value_None 0). now rewrite E.
Qed.

(** The digits of a number, as [pretty] writes them. *)
Lemma pretty_N_go_append (x : N) (s : string) :
  pretty_N_go x s = pretty_N_go x "" +:+ s.
Proof.
  revert s. induction (N.lt_wf_0 x) as [x _ IH]; intros s.
  destruct (decide (x = 0)%N) as [->|Hx]; [reflexivity|].
  assert (Hlt : (x `div` 10 < x)%N) by (apply N.div_lt; lia).
  rewrite (pretty_N_go_step x s), (pretty_N_go_step x "") by lia.
  rewrite (IH _ Hlt (String (pretty_N_char (x `mod` 10)) s)).
  rewrite (IH _ Hlt (String (pretty_N_char (x `mod` 10)) "")).
  now rewrite append_assoc'.
Qed.

Lemma pretty_N_go_snoc (x : N) :
  (0 < x)%N →
  pretty_N_go x "" =
    pretty_N_go (x `div` 10) "" +:+ String (pretty_N_char (x `mod` 10)) "".
Proof.
  intros Hx. rewrite (pretty_N_go_step x "") by exact Hx.
  apply pretty_N_go_append.
Qed.

Lemma pretty_N_char_digit (d : N) :
  (d < 10)%N → digit_kind_of (N_of_ascii (pretty_N_char d)) = DecimalDigit d.
Proof.
  intros Hd.
  assert (d = 0 ∨ d = 1 ∨ d = 2 ∨ d = 3 ∨ d = 4 ∨ d = 5 ∨ d = 6 ∨ d = 7
          ∨ d = 8 ∨ d = 9)%N as Hc by lia.
  repeat (destruct Hc as [->|Hc]; [reflexivity|]).
  subst d. reflexivity.
Qed.

Lemma pretty_N_go_value (x : N) :
  Forall (λ c, isdigit c = true) (codes (pretty_N_go x "")) ∧
  decimal_value 0 (codes (pretty_N_go x "")) = Some (Z.of_N x).
Proof.
  induction (N.lt_wf_0 x) as [x _ IH].
  destruct (decide (x = 0)%N) as [->|Hx]; [split; [constructor|reflexivity]|].
  rewrite pretty_N_go_snoc by lia.
  destruct (IH (x `div` 10)%N ltac:(apply N.div_lt; lia)) as [IHd IHv].
  pose proof (pretty_N_char_digit (x `mod` 10)%N ltac:(apply N.mod_lt; lia)) as Hc.
  rewrite codes_append. split.
  - apply Forall_app. split; [exact IHd|].
    constructor; [|constructor]. unfold isdigit. now rewrite Hc.
  - rewrite decimal_value_app, IHv. cbn [mbind option_bind].
    change (codes (String (pretty_N_char (x `mod` 10)) ""))
      with [N_of_ascii (pretty_N_char (x `mod` 10))].
    cbn [decimal_value]. rewrite Hc. f_equal.
    rewrite (N.div_mod x 10) at 3 by lia. lia.
Qed.

Lemma pretty_N_go_nonempty (x : N) : (0 < x)%N → pretty_N_go x "" ≠ "".
Proof.
  intros Hx. rewrite pretty_N_go_snoc by exact Hx.
  destruct (pretty_N_go (x `div` 10) ""); discriminate.
Qed.

(** [str(n)] for [n >= 0] is a non-empty text of decimal digits with
    value [n]. *)
Lemma str_of_int_value (n : Z) :
  0 <= n →
  Forall (λ c, isdigit c = true) (codes (str_of_int n)) ∧
  decimal_value 0 (codes (str_of_int n)) = Some n ∧
  str_of_int n ≠ "".
Proof.
  intros Hn. unfold str_of_int.
  destruct n as [|p|p]; [repeat split; [repeat constructor|discriminate]| |lia].
  change (pretty (Z.pos p)) with (pretty_N_go (N.pos p) "").
  destruct (pretty_N_go_value (N.pos p)) as [Hd Hv].
  split; [exact Hd|]. split; [exact Hv|].
  apply pretty_N_go_nonempty. lia.
Qed.

(** [str(n)] for a negative [n]: a minus sign and the digits of [-n]. *)
Lemma str_of_int_neg (n : Z) : n < 0 → str_of_int n = "-" +:+ str_of_int (- n).
Proof. intros Hn. destruct n as [|p|p]; try lia. reflexivity. Qed.

Lemma digits_of_str_of_int (n : Z) :
  digits_of (codes (str_of_int n)) = codes (str_of_int (Z.abs n)).
Proof.
  destruct (Z.lt_ge_cases n 0) as [Hn|Hn].
  - rewrite str_of_int_neg, codes_append, digits_of_app by exact Hn.
    change (digits_of (codes "-")) with (@nil N). cbn [app].
    rewrite Z.abs_neq by lia. apply digits_of_fixed, str_of_int_value. lia.
  - rewrite Z.abs_eq by lia. now apply digits_of_fixed, str_of_int_value.
Qed.

Lemma digits_of_group (s : string) :
  digits_of (codes (group_digits s)) = digits_of (codes s).
Proof.
  induction s as [|c s IH]; [reflexivity|].
  cbn [group_digits].
  destruct (negb (String.length s =? 0)%nat && (String.length s `mod` 3 =? 0)%nat).
  - change (codes (String c (String "," (group_digits s))))
      with (N_of_ascii c :: 44%N :: codes (group_digits s)).
    change (codes (String c s)) with (N_of_ascii c :: codes s).
    cbn [digits_of]. change (isdigit 44) with false. cbv iota. now rewrite IH.
  - change (codes (String c (group_digits s)))
      with (N_of_ascii c :: codes (group_digits s)).
    change (codes (String c s)) with (N_of_ascii c :: codes s).
    cbn [digits_of]. now rewrite IH.
Qed.

Lemma digits_of_format_commas (n : Z) :
  digits_of (codes (format_commas n)) = codes (str_of_int (Z.abs n)).
Proof.
  unfold format_commas. destruct (n <? 0) eqn:E.
  - apply Z.ltb_lt in E. rewrite codes_append, digits_of_app, digits_of_group.
    change (digits_of (codes "-")) with (@nil N). cbn [app].
    rewrite Z.abs_neq by lia. apply digits_of_fixed, str_of_int_value. lia.
  - apply Z.ltb_ge in E. rewrite digits_of_group.
    rewrite Z.abs_eq by lia. now apply digits_of_fixed, str_of_int_value.
Qed.

Lemma parse_int_digits_digits (text : str) (n : Z) :
  0 <= n →
  over_limit (String.length (str_of_int n)) = false →
  digits_of text = codes (str_of_int n) →
  parse_int_digits text = Some (Some n).
Proof.
  intros Hn Ho E. destruct (str_of_int_value n Hn) as (_ & Hv & Hne).
  unfold parse_int_digits. rewrite E.
  destruct (codes (str_of_int n)) as [|c d] eqn:Ec.
  { exfalso. apply Hne. apply (f_equal length) in Ec. rewrite length_codes in Ec.
    now destruct (str_of_int n). }
  rewrite <- length_codes, Ec in Ho. unfold int_of_digits. now rewrite Ho, Hv.
Qed.

(** X6. [parse_int_digits] reads back every integer as [str] writes it
    and as ["{:,}".format] writes it, with its thousands separators, as
    long as the number of its digits is within the limit of [int]; of a
    negative number it gives the absolute value, the sign being passed
    over. *)
Theorem parse_int_digits_reads_numbers (n : Z) :
  over_limit (String.length (str_of_int (Z.abs n))) = false →
  parse_int_digits (codes (str_of_int n)) = Some (Some (Z.abs n)) ∧
  parse_int_digits (codes (format_commas n)) = Some (Some (Z.abs n)).
Proof.
  intros Ho. split; apply parse_int_digits_digits; auto using Z.abs_nonneg.
  - apply digits_of_str_of_int.
  - apply digits_of_format_commas.
Qed.

(** The loop of [fetch_play_count], for any number of retries. *)
Lemma attempts_from_bounds (max_retries : nat) (backoff : Z) (net : nat → response)
    (attempt todo made : nat) (waited : Z) :
  0 <= backoff →
  let r := attempts_from max_retries backoff net attempt todo made waited in
  (requests r <= made + todo)%nat ∧
  waited <= slept r ∧
  slept r <= waited + backoff * (Z.of_nat todo * (Z.of_nat attempt + Z.of_nat todo)).
Proof.
  intros Hb. revert attempt made waited.
  induction todo as [|todo IH]; intros attempt made waited; simpl.
  - repeat split; lia.
  - destruct (try_block (net attempt)); simpl.
    + repeat split; nia.
    + destruct (IH (S attempt) (S made)
                  (if (attempt <=? max_retries)%nat
                   then waited + backoff * Z.of_nat attempt else waited))
        as (Hr & Hlo & Hhi).
      repeat split; [lia| |].
      * destruct (attempt <=? max_retries)%nat; nia.
      * destruct (attempt <=? max_retries)%nat; nia.
Qed.

(** X7. [fetch_play_count] makes at most three requests and sleeps at most
    nine seconds.  The first attempt whose [try] block completes decides:
    it gives the result, also when no count is found on the page, no
    further request is made, and the sleeps before it were of 3 and then
    6 seconds.  An attempt fails when the request raises and also when
    [int] raises on the page; when all three fail the result is [None]
    after 9 seconds of sleep. *)
Theorem fetch_play_count_bounded (net : nat → response) :
  let r := fetch_play_count net in
  (requests r <= 3)%nat ∧ 0 <= slept r <= 9 ∧
  (∀ k val, (1 <= k <= 3)%nat →
     (∀ j, (1 <= j < k)%nat → try_block (net j) = None) →
     try_block (net k) = Some val →
     result r = val ∧ requests r = k ∧
     slept r = 3 * Z.of_nat (k - 1) * Z.of_nat k / 2) ∧
  ((∀ j, (1 <= j <= 3)%nat → try_block (net j) = None) →
   result r = None ∧ requests r = 3%nat ∧ slept r = 9).
Proof.
  intros r. unfold r, fetch_play_count.
  change (MAX_RETRIES + 1)%nat with 3%nat.
  split; [|split; [|split]].
  - pose proof (attempts_from_bounds MAX_RETRIES BACKOFF_SECONDS net 1 3 0 0
                  ltac:(unfold BACKOFF_SECONDS; lia)) as (Hr & _ & _).
    exact Hr.
  - simpl. unfold BACKOFF_SECONDS.
    destruct (try_block (net 1%nat)); simpl; [lia|].
    destruct (try_block (net 2%nat)); simpl; [lia|].
    destruct (try_block (net 3%nat)); simpl; lia.
  - intros k val Hk Hfail Hgot.
    assert (k = 1 ∨ k = 2 ∨ k = 3)%nat as Hk3 by lia.
    destruct Hk3 as [-> | [-> | ->]]; simpl.
    + rewrite Hgot. repeat split.
    + rewrite (Hfail 1%nat) by lia. rewrite Hgot. repeat split.
    + rewrite (Hfail 1%nat), (Hfail 2%nat) by lia. rewrite Hgot. repeat split.
  - intros Hfail. simpl.
    rewrite (Hfail 1%nat), (Hfail 2%nat), (Hfail 3%nat) by lia. repeat split.
Qed.

End Scraper.

Section ScraperExamples.
Import Scrape AppDisplay RefText.

Lemma parse_int_digits_reads_numbers_witness :
  parse_int_digits (codes (str_of_int (-1234567))) = Some (Some 1234567) ∧
  parse_int_digits (codes (format_commas (-1234567))) = Some (Some 1234567).
Proof.
  refine (parse_int_digits_reads_numbers (-1234567) _).
  vm_compute. reflexivity.
Defined.

(** [int] accepts the Arabic-Indic digits and raises on a superscript,
    which [isdigit] lets through. *)
Example parse_int_digits_unicode :
  parse_int_digits (codes "1,234 ") = Some (Some 1234) ∧
  parse_int_digits (codes "about ") = Some None ∧
  parse_int_digits [1635; 1636]%N = Some (Some 34) ∧
  parse_int_digits [49; 178; 51]%N = None.
Proof. vm_compute. auto. Qed.

(** A page on which [int] raises is asked for again: here the second
    attempt, after three seconds, gives the count. *)
Example fetch_play_count_retries :
  fetch_play_count
    (λ attempt,
       match attempt with
       | 1%nat => Got (mk_page (λ _, None) (λ _, None) [codes "1" ++ [178%N] ++ codes " Plays"])
       | _ => Got (mk_page (λ _, None) (λ _, Some (codes "1,234 Plays")) [])
       end)
  = mk_fetched (Some 1234) 2 3.
Proof. vm_compute. reflexivity. Qed.

End ScraperExamples.

(** ** The files around an update *)

Section StoreFrame.
Context `{PyLib} `{PyText.TextLib}.
Import UpdateCounts.

Lemma save_json_tmp_gone (path : string) (data : list entry) (fs : files) :
  save_json path data fs !! (path +:+ ".tmp") = None.
Proof.
  unfold save_json, os_replace. rewrite lookup_insert_eq.
  rewrite lookup_insert_ne by (intros E; symmetry in E; now apply append_tmp_ne in E).
  apply lookup_delete_eq.
Qed.

Lemma save_json_other (path : string) (data : list entry) (fs : files) (p : string) :
  p ≠ path → p ≠ path +:+ ".tmp" →
  save_json path data fs !! p = fs !! p.
Proof.
  intros Hp Ht. unfold save_json, os_replace. rewrite lookup_insert_eq.
  rewrite lookup_insert_ne by congruence.
  rewrite lookup_delete_ne by congruence.
  now rewrite lookup_insert_ne by congruence.
Qed.

(** X8. After [save_json] the path holds the new series, no [.tmp] file is
    left beside it (one that was there before is gone too), and every
    other path is as it was. *)
Theorem save_json_replaces_in_place (path : string) (data : list entry) (fs : files) :
  save_json path data fs !! path = Some (JsonDoc data) ∧
  save_json path data fs !! (path +:+ ".tmp") = None ∧
  ∀ p, p ≠ path → p ≠ path +:+ ".tmp" → save_json path data fs !! p = fs !! p.
Proof.
  split; [apply save_json_lookup|]. split; [apply save_json_tmp_gone|].
  intros p. apply save_json_other.
Qed.

Lemma update_song_other (meta : song_meta) (fetched : option Z) (now : aware)
    (fs : files) (p : string) :
  p ≠ json_file meta → p ≠ json_file meta +:+ ".tmp" →
  (update_song meta fetched now fs).2 !! p = fs !! p.
Proof.
  intros Hp Ht.
  destruct (update_song_cases meta fetched now fs) as [->|(c & _ & _ & _ & ->)];
    [reflexivity|].
  now apply save_json_other.
Qed.

(** [update_song] looks at its own history file only. *)
Lemma update_song_local (meta : song_meta) (fetched : option Z) (now : aware)
    (fs1 fs2 : files) :
  fs1 !! json_file meta = fs2 !! json_file meta →
  (update_song meta fetched now fs1).1 = (update_song meta fetched now fs2).1 ∧
  load_json (json_file meta) (update_song meta fetched now fs1).2
    = load_json (json_file meta) (update_song meta fetched now fs2).2.
Proof.
  intros E.
  assert (L : load_json (json_file meta) fs1 = load_json (json_file meta) fs2).
  { unfold load_json. now rewrite E. }
  unfold update_song. rewrite L.
  destruct fetched as [c|]; [|now split].
  destruct (decreasing _ c); [now split|].
  destruct (should_append_hourly _ _); [|now split].
  simpl. now rewrite !load_after_save.
Qed.

(** X9. Whatever is fed to [update_song], the stored series only grows at
    its end: after any sequence of fetch results it is the series read
    before, followed by samples [(now, value)] of the feed in the order of
    the feed; and no path other than the song's history file and its
    [.tmp] companion is touched. *)
Theorem run_updates_append_only (meta : song_meta)
    (feed : list (option Z * aware)) (fs : files) :
  (∃ added,
     load_json (json_file meta) (run_updates meta feed fs)
       = load_json (json_file meta) fs ++ added ∧
     added `sublist_of`
       omap (λ step, new_entry (naive step.2) <$> step.1) feed) ∧
  ∀ p, p ≠ json_file meta → p ≠ json_file meta +:+ ".tmp" →
       run_updates meta feed fs !! p = fs !! p.
Proof.
  revert fs. induction feed as [|[fetched now] feed IH]; intros fs; simpl.
  - split; [|reflexivity]. exists []. split; [now rewrite app_nil_r|constructor].
  - destruct (IH (update_song meta fetched now fs).2) as [(added & E & Hsub) Hfr].
    split.
    + destruct (update_song_cases meta fetched now fs)
        as [Eu|(c & -> & _ & _ & Eu)]; rewrite Eu in E |- *; cbn [fst snd] in E |- *.
      * exists added. split; [exact E|].
        destruct fetched; simpl; [now apply sublist_cons|exact Hsub].
      * rewrite load_after_save, <- app_assoc in E.
        exists (new_entry (naive now) c :: added).
        split; [exact E | now apply sublist_skip].
    + intros p Hp Ht. rewrite Hfr by assumption.
      now apply update_song_other.
Qed.

Import Main.

(** X10. In [main] the songs do not interfere: each song's history after
    [main] is what [update_song] alone makes of the files [main] started
    from, and [main] reports a change exactly when one of these updates
    stored a sample. *)
Theorem main_updates_each_song (net : string → nat → Scrape.response)
    (clock : string → aware) (now : aware)
    (summary_clock : string → aware * aware) (fs : files) :
  let r := main net clock now summary_clock fs in
  let alone (sid : string) (meta : song_meta) :=
    update_song meta (Scrape.result (Scrape.fetch_play_count (net (url meta))))
      (clock sid) fs in
  (∀ sid meta, (sid, meta) ∈ SONGS →
     load_json (json_file meta) r.1.2 = load_json (json_file meta) (alone sid meta).2) ∧
  (r.1.1 = true ↔ ∃ sid meta, (sid, meta) ∈ SONGS ∧ (alone sid meta).1 = true).
Proof.
  intros r alone. unfold r, main, SONGS. cbn [update_all fst snd].
  set (m1 := mk_meta "firestorm_history.json" _).
  set (m2 := mk_meta "hungry_cheetah_history.json" _).
  set (f1 := Scrape.result (Scrape.fetch_play_count (net (url m1)))).
  set (f2 := Scrape.result (Scrape.fetch_play_count (net (url m2)))).
  set (u1 := update_song m1 f1 (clock "firestorm") fs).
  set (u2 := update_song m2 f2 (clock "hungry_cheetah") u1.2).
  assert (E2 : u1.2 !! json_file m2 = fs !! json_file m2).
  { apply update_song_other; discriminate. }
  destruct (update_song_local m2 f2 (clock "hungry_cheetah") _ _ E2) as [Eb El].
  fold u2 in Eb, El.
  split.
  - intros sid meta Hin.
    apply elem_of_cons in Hin as [[= -> ->]|Hin].
    + unfold load_json. unfold u2. rewrite update_song_other by discriminate.
      reflexivity.
    + apply list_elem_of_singleton in Hin as [= -> ->]. exact El.
  - split.
    + intros Hc.
      destruct (u1.1) eqn:B1.
      * exists "firestorm", m1. split; [apply list_elem_of_here | exact B1].
      * exists "hungry_cheetah", m2.
        split; [apply list_elem_of_further, list_elem_of_here|].
        unfold alone. fold f2. rewrite <- Eb. now destruct (u2.1).
    + intros (sid & meta & Hin & Ha).
      apply elem_of_cons in Hin as [[= -> ->]|Hin].
      * unfold alone in Ha. fold f1 u1 in Ha. rewrite Ha. now destruct (u2.1).
      * apply list_elem_of_singleton in Hin as [= -> ->].
        unfold alone in Ha. fold f2 in Ha. rewrite <- Eb in Ha. now rewrite Ha.
Qed.

End StoreFrame.

(** ** The summary *)

Section Summary.
Context `{PyLib}.
Import UpdateCounts.

Lemma find_reference_elem (now : aware) (entries : list entry) (hours_back : Z)
    (e : entry) :
  find_reference now entries hours_back = Some e →
  e ∈ entries ∧ is_Some (civil_time e).
Proof.
  unfold find_reference.
  pose proof (reference_inv_fold now hours_back entries) as I.
  destruct (fold_left _ _ _) as [[x|] [m|]]; simpl in *; try contradiction;
    intros [= <-].
  destruct I as (l1 & l2 & t & -> & Et & _).
  split; [|eauto]. apply elem_of_app. right. apply list_elem_of_here.
Qed.

Lemma find_reference_None (now : aware) (entries : list entry) (hours_back : Z) :
  find_reference now entries hours_back = None ↔
  Forall (λ e, civil_time e = None) entries.
Proof.
  split.
  - unfold find_reference.
    pose proof (reference_inv_fold now hours_back entries) as I.
    destruct (fold_left _ _ _) as [[x|] [m|]]; simpl in *; try contradiction;
      [discriminate|]. intros _. exact I.
  - intros Hall. destruct (find_reference now entries hours_back) as [e|] eqn:E;
      [|reflexivity].
    destruct (find_reference_elem _ _ _ _ E) as [Hin [t Et]].
    rewrite Forall_forall in Hall. rewrite (Hall e Hin) in Et. discriminate.
Qed.

(** How [song_summary] builds its record. *)
Lemma song_summary_Stats (now_h now_d : aware) (data : list entry) (s : song_stats) :
  song_summary now_h now_d data = Stats s →
  ∃ l, last data = Some l ∧ int_value l = Some (current s) ∧
       entries s = length data ∧
       match find_reference now_h data 1 with
       | None => previous_hour s = None
       | Some p => ∃ v, int_value p = Some v ∧ previous_hour s = Some v
       end ∧
       hour_increase s = (λ p, current s - p) <$> previous_hour s ∧
       match find_reference now_d data 24 with
       | None => previous_24h s = None
       | Some p => ∃ v, int_value p = Some v ∧ previous_24h s = Some v
       end ∧
       day_increase s = (λ p, current s - p) <$> previous_24h s.
Proof.
  unfold song_summary, int_value, increase.
  destruct (last data) as [l|]; [|discriminate].
  destruct (py_int (play_count l)) as [cur|] eqn:Ecur; [|discriminate].
  destruct (find_reference now_h data 1) as [ph|].
  - destruct (py_int (play_count ph)) as [vh|] eqn:Eh; [|discriminate].
    destruct (find_reference now_d data 24) as [pd|].
    + destruct (py_int (play_count pd)) as [vd|] eqn:Ed; [|discriminate].
      intros [= <-]. exists l. simpl.
      repeat first [reflexivity | assumption | split | eexists].
    + intros [= <-]. exists l. simpl.
      repeat first [reflexivity | assumption | split | eexists].
  - destruct (find_reference now_d data 24) as [pd|].
    + destruct (py_int (play_count pd)) as [vd|] eqn:Ed; [|discriminate].
      intros [= <-]. exists l. simpl.
      repeat first [reflexivity | assumption | split | eexists].
    + intros [= <-]. exists l. simpl.
      repeat first [reflexivity | assumption | split | eexists].
Qed.

(** X11. In every record [build_summary] writes for a song, [entries] is
    the length of the series, [current] the integer of its last sample,
    each increase is [current] minus the matching previous value, and a
    previous value is missing exactly when no timestamp of the series
    parses. *)
Theorem song_summary_consistent (now_h now_d : aware) (data : list entry)
    (s : song_stats) :
  song_summary now_h now_d data = Stats s →
  entries s = length data ∧
  (∃ l, last data = Some l ∧ int_value l = Some (current s)) ∧
  hour_increase s = (λ p, current s - p) <$> previous_hour s ∧
  day_increase s = (λ p, current s - p) <$> previous_24h s ∧
  (previous_hour s = None ↔ Forall (λ e, civil_time e = None) data) ∧
  (previous_24h s = None ↔ Forall (λ e, civil_time e = None) data).
Proof.
  intros E.
  destruct (song_summary_Stats _ _ _ _ E) as (l & El & Ev & En & Eph & Ehi & Epd & Edi).
  split; [exact En|]. split; [eauto|]. split; [exact Ehi|]. split; [exact Edi|].
  split.
  - destruct (find_reference now_h data 1) as [p|] eqn:Er.
    + destruct Eph as (v & _ & Eq). split; [rewrite Eq; discriminate|].
      intros Hall. apply (find_reference_None now_h data 1) in Hall. congruence.
    + split; [intros _; now apply (find_reference_None now_h data 1) | now intros _].
  - destruct (find_reference now_d data 24) as [p|] eqn:Er.
    + destruct Epd as (v & _ & Eq). split; [rewrite Eq; discriminate|].
      intros Hall. apply (find_reference_None now_d data 24) in Hall. congruence.
    + split; [intros _; now apply (find_reference_None now_d data 24) | now intros _].
Qed.

Lemma series_monotone_le (data : list entry) (i j : nat) (a b : entry) (va vb : Z) :
  series_monotone data → (i <= j)%nat →
  data !! i = Some a → data !! j = Some b →
  int_value a = Some va → int_value b = Some vb → va <= vb.
Proof.
  intros [Hint Hord] Hij. revert b vb.
  induction Hij as [|j Hij IH]; intros b vb Ha Hb Eva Evb.
  - rewrite Ha in Hb. injection Hb as <-. rewrite Eva in Evb.
    injection Evb as <-. lia.
  - destruct (data !! j) as [c|] eqn:Ec.
    2:{ apply lookup_ge_None in Ec. apply lookup_lt_Some in Hb. lia. }
    rewrite Forall_forall in Hint.
    destruct (Hint c (list_elem_of_lookup_2 _ _ _ Ec)) as [vc Evc].
    specialize (IH c vc Ha eq_refl Eva Evc).
    specialize (Hord j c b vc vb Ec Hb Evc Evb). lia.
Qed.

(** X12. On a series of integer, non-decreasing play counts the increases
    [build_summary] reports are never negative. *)
Theorem song_summary_increase_nonneg (now_h now_d : aware) (data : list entry)
    (s : song_stats) :
  series_monotone data →
  song_summary now_h now_d data = Stats s →
  (∀ d, hour_increase s = Some d → 0 <= d) ∧
  (∀ d, day_increase s = Some d → 0 <= d).
Proof.
  intros Hm E.
  destruct (song_summary_Stats _ _ _ _ E) as (l & El & Ev & En & Eph & Ehi & Epd & Edi).
  assert (Hle : ∀ now h p v,
            find_reference now data h = Some p → int_value p = Some v →
            v <= current s).
  { intros now h p v Er Ep.
    destruct (find_reference_elem _ _ _ _ Er) as [Hin _].
    apply list_elem_of_lookup in Hin as [i Hi].
    rewrite last_lookup in El.
    apply (series_monotone_le data i (pred (length data)) p l v (current s));
      auto.
    apply lookup_lt_Some in Hi. lia. }
  split; intros d Hd.
  - rewrite Ehi in Hd.
    destruct (find_reference now_h data 1) as [p|] eqn:Er.
    + destruct Eph as (v & Ep & Eq). rewrite Eq in Hd. simpl in Hd.
      injection Hd as <-. specialize (Hle _ _ _ _ Er Ep). lia.
    + rewrite Eph in Hd. discriminate.
  - rewrite Edi in Hd.
    destruct (find_reference now_d data 24) as [p|] eqn:Er.
    + destruct Epd as (v & Ep & Eq). rewrite Eq in Hd. simpl in Hd.
      injection Hd as <-. specialize (Hle _ _ _ _ Er Ep). lia.
    + rewrite Epd in Hd. discriminate.
Qed.

(** X13. [build_summary] raises for a song whose last stored play count is
    no integer (a sample [update_song] accepts a successor to), and never
    raises for a song whose stored play counts are all integers. *)
Theorem song_summary_raises (now_h now_d : aware) (data : list entry) :
  (∀ l, last data = Some l → int_value l = None →
        song_summary now_h now_d data = Raises) ∧
  (Forall (λ e, is_Some (int_value e)) data →
   song_summary now_h now_d data ≠ Raises).
Proof.
  split.
  - intros l El Ev. unfold song_summary. rewrite El.
    unfold int_value in Ev. now rewrite Ev.
  - intros Hall. rewrite Forall_forall in Hall.
    unfold song_summary.
    destruct (last data) as [l|] eqn:El; [|discriminate].
    destruct (Hall l (last_Some_elem_of _ _ El)) as [cur Ecur].
    unfold int_value in Ecur. rewrite Ecur.
    assert (Hint : ∀ now h p, find_reference now data h = Some p →
              is_Some (py_int (play_count p))).
    { intros now h p Er. apply Hall. now apply find_reference_elem in Er as [? _]. }
    destruct (find_reference now_h data 1) as [ph|] eqn:E1;
      [destruct (Hint _ _ _ E1) as [vh ->]|];
      (destruct (find_reference now_d data 24) as [pd|] eqn:E2;
       [destruct (Hint _ _ _ E2) as [vd ->]|]); discriminate.
Qed.

(** The ids [summarise] lists. *)
Lemma summarise_ids (clock : string → aware * aware) (fs : files)
    (catalog : list (string * song_meta)) (l : list (string * song_stats)) :
  summarise clock fs catalog = Some l →
  l.*1 = (filter (λ sm, load_json (json_file sm.2) fs ≠ []) catalog).*1 ∧
  ∀ sid st, (sid, st) ∈ l →
    ∃ meta, (sid, meta) ∈ catalog ∧
      song_summary (clock sid).1 (clock sid).2 (load_json (json_file meta) fs)
        = Stats st.
Proof.
  revert l. induction catalog as [|[sid meta] rest IH]; intros l; simpl.
  - intros [= <-]. split; [reflexivity|]. intros ? ? Hin. now apply elem_of_nil in Hin.
  - destruct (clock sid) as [now_h now_d] eqn:Ec.
    destruct (song_summary now_h now_d (load_json (json_file meta) fs)) as [| |s] eqn:Es;
      [discriminate| |].
    + intros El. destruct (IH l El) as [Hids Hst].
      assert (Hempty : load_json (json_file meta) fs = []).
      { unfold song_summary in Es.
        destruct (last (load_json (json_file meta) fs)) eqn:Elast.
        - destruct (py_int _); [|discriminate].
          repeat match type of Es with
                 | context [match ?x with _ => _ end] => destruct x
                 end; discriminate.
        - now apply last_None in Elast. }
      rewrite filter_cons_False by (simpl; intros Hne; now apply Hne).
      split; [exact Hids|].
      intros sid' st Hin. destruct (Hst sid' st Hin) as (m & Hm & E).
      exists m. split; [now apply list_elem_of_further | exact E].
    + destruct (summarise clock fs rest) as [l'|] eqn:El'; [|discriminate].
      intros [= <-]. destruct (IH l' eq_refl) as [Hids Hst].
      assert (Hne : load_json (json_file meta) fs ≠ []).
      { intros Hnil. rewrite Hnil in Es. discriminate. }
      rewrite filter_cons_True by exact Hne.
      split; [rewrite !fmap_cons; now rewrite Hids|].
      intros sid' st Hin. apply elem_of_cons in Hin as [[= -> ->]|Hin].
      * exists meta. split; [apply list_elem_of_here|]. now rewrite Ec.
      * destruct (Hst sid' st Hin) as (m & Hm & E).
        exists m. split; [now apply list_elem_of_further | exact E].
Qed.

(** X14. When [build_summary] returns, its document lists, in catalog
    order, exactly the songs whose history reads as a non-empty series (a
    missing, unreadable or empty file leaves the song out), each with the
    record computed from that series. *)
Theorem build_summary_lists_stored (now : aware) (clock : string → aware * aware)
    (fs : files) (doc : summary) :
  build_summary now clock fs = Some doc →
  (songs doc).*1
    = (filter (λ sm, load_json (json_file sm.2) fs ≠ []) SONGS).*1 ∧
  ∀ sid st, (sid, st) ∈ songs doc →
    ∃ meta, (sid, meta) ∈ SONGS ∧
      song_summary (clock sid).1 (clock sid).2 (load_json (json_file meta) fs)
        = Stats st.
Proof.
  unfold build_summary.
  destruct (summarise clock fs SONGS) as [l|] eqn:El; [|discriminate].
  intros [= <-]. simpl. now apply summarise_ids.
Qed.

End Summary.

Section SummaryExamples.
Import UpdateCounts Samples RefLib.

Lemma song_summary_consistent_witness :
  let s := mk_stats 620 (Some 500) (Some 120) (Some 500) (Some 120) 2 in
  entries s = length [s_1000; s_1110] ∧
  (∃ l, last [s_1000; s_1110] = Some l ∧ int_value l = Some (current s)) ∧
  hour_increase s = (λ p, current s - p) <$> previous_hour s ∧
  day_increase s = (λ p, current s - p) <$> previous_24h s ∧
  (previous_hour s = None ↔ Forall (λ e, civil_time e = None) [s_1000; s_1110]) ∧
  (previous_24h s = None ↔ Forall (λ e, civil_time e = None) [s_1000; s_1110]).
Proof.
  apply (song_summary_consistent (at_ 11 10 0) (at_ 11 10 0) [s_1000; s_1110]).
  vm_compute. reflexivity.
Defined.

Lemma song_summary_increase_nonneg_witness :
  let s := mk_stats 620 (Some 500) (Some 120) (Some 500) (Some 120) 2 in
  (∀ d, hour_increase s = Some d → 0 <= d) ∧
  (∀ d, day_increase s = Some d → 0 <= d).
Proof.
  apply (song_summary_increase_nonneg (at_ 11 10 0) (at_ 11 10 0) [s_1000; s_1110]).
  - split.
    + repeat constructor; eexists; vm_compute; reflexivity.
    + intros [|[|i]] a b va vb Ha Hb Eva Evb; simpl in Ha, Hb; try discriminate.
      injection Ha as <-. injection Hb as <-.
      vm_compute in Eva, Evb. injection Eva as <-. injection Evb as <-. lia.
  - vm_compute. reflexivity.
Defined.

Lemma build_summary_lists_stored_witness :
  ∃ doc,
    build_summary (at_ 11 10 0) (λ _, (at_ 11 10 0, at_ 11 10 0))
      (store [s_1000; s_1110]) = Some doc ∧
    (songs doc).*1 = ["firestorm"].
Proof.
  destruct (build_summary (at_ 11 10 0) (λ _, (at_ 11 10 0, at_ 11 10 0))
              (store [s_1000; s_1110])) as [doc|] eqn:E;
    [|vm_compute in E; discriminate E].
  exists doc. split; [reflexivity|].
  rewrite (proj1 (build_summary_lists_stored _ _ _ _ E)).
  vm_compute. reflexivity.
Defined.

(** A last play count that is no integer: [update_song] stores a successor
    and [build_summary] then raises on the same file. *)
Example summary_raises_after_update :
  song_summary (at_ 11 10 0) (at_ 11 10 0) [s_0900; s_bad_count] = Raises.
Proof. vm_compute. reflexivity. Qed.

End SummaryExamples.

(** ** The polling loop of [app.py] *)

Section Poller.
Import App AppLoop.

Lemma ingest_cases (fetched : option string) (now : aware) (song : song_state) :
  ingest fetched now song = song ∨
  ∃ pc, fetched = Some pc ∧ pc ≠ "" ∧
        (∀ l, last (song_entries song) = Some l → play_count l ≠ pc) ∧
        ingest fetched now song =
          {| song_entries := song_entries song ++ [csv_entry pc now];
             csv_rows := csv_rows song ++ [csv_entry pc now] |}.
Proof.
  unfold ingest. destruct fetched as [[|c pc]|]; [now left| |now left].
  destruct (last (song_entries song)) as [l|] eqn:El.
  - destruct (bool_decide (play_count l ≠ String c pc)) eqn:B; [|now left].
    apply bool_decide_eq_true in B. right. exists (String c pc).
    repeat split; try discriminate. now intros ? [= <-].
  - right. exists (String c pc). repeat split; discriminate.
Qed.

Lemma no_repeat_snoc (l : list entry) (e : entry) :
  no_repeat l →
  (∀ x, last l = Some x → play_count x ≠ play_count e) →
  no_repeat (l ++ [e]).
Proof.
  intros Hl Hlast i a b Ha Hb.
  destruct (decide (S i < length l)%nat) as [Hlt|Hge].
  - rewrite lookup_app_l in Ha by lia. rewrite lookup_app_l in Hb by lia. eauto.
  - assert (Hi : S i = length l).
    { apply lookup_lt_Some in Hb. rewrite length_app in Hb. simpl in Hb. lia. }
    rewrite lookup_app_l in Ha by lia.
    rewrite lookup_app_r in Hb by lia.
    replace (S i - length l)%nat with 0%nat in Hb by lia.
    simpl in Hb. injection Hb as <-.
    apply Hlast. rewrite last_lookup, <- Hi. exact Ha.
Qed.

Lemma run_ingest_keeps_no_repeat (feed : list (option string * aware))
    (song : song_state) :
  no_repeat (song_entries song) →
  no_repeat (song_entries (run_ingest feed song)).
Proof.
  revert song. induction feed as [|[fetched now] feed IH]; intros song Hn; simpl;
    [exact Hn|].
  apply IH.
  destruct (ingest_cases fetched now song) as [->|(pc & _ & _ & Hl & ->)];
    [exact Hn|].
  simpl. apply no_repeat_snoc; [exact Hn|]. intros x Ex. simpl. now apply Hl.
Qed.

(** X16. A polling loop that starts on an empty series never stores the
    same play count twice in a row, whatever it is fed: every entry it
    appends differs in its play count from the one before. *)
Theorem run_ingest_no_repeat (feed : list (option string * aware)) :
  no_repeat (song_entries (run_ingest feed (mk_song [] []))).
Proof.
  apply run_ingest_keeps_no_repeat.
  intros i a b Ha. simpl in Ha. now rewrite lookup_nil in Ha.
Qed.

Lemma due_spec (l current_time : aware) :
  due (Some l) current_time = true ↔ 900 * 1000000 <= aware_sub current_time l.
Proof.
  unfold due, total_seconds. rewrite Qle_bool_iff.
  unfold Qle, inject_Z. simpl. lia.
Qed.

(** What the loop keeps: [last_update_time] is the last time of the log,
    and neighbours of the log are 900 seconds apart or more. *)
Lemma turn_log (fetch : string → option string) (current_time : aware)
    (st : loop_state) :
  last_update_time st = last (log st) →
  (∀ (i : nat) a b, log st !! i = Some a → log st !! S i = Some b →
     900 * 1000000 <= aware_sub b a) →
  last_update_time (turn fetch current_time st) = last (log (turn fetch current_time st)) ∧
  (∀ (i : nat) a b, log (turn fetch current_time st) !! i = Some a →
     log (turn fetch current_time st) !! S i = Some b →
     900 * 1000000 <= aware_sub b a).
Proof.
  intros Hlast Hlog. unfold turn.
  destruct (due (last_update_time st) current_time) eqn:D; [|now split].
  simpl. split; [now rewrite last_snoc|].
  intros i a b Ha Hb.
  destruct (decide (S i < length (log st))%nat) as [Hlt|Hge].
  - rewrite lookup_app_l in Ha by lia. rewrite lookup_app_l in Hb by lia. eauto.
  - assert (Hi : S i = length (log st)).
    { apply lookup_lt_Some in Hb. rewrite length_app in Hb. simpl in Hb. lia. }
    rewrite lookup_app_l in Ha by lia.
    rewrite lookup_app_r in Hb by lia.
    replace (S i - length (log st))%nat with 0%nat in Hb by lia.
    simpl in Hb. injection Hb as <-.
    assert (El : last (log st) = Some a) by (rewrite last_lookup, <- Hi; exact Ha).
    rewrite Hlast, El in D. now apply due_spec in D.
Qed.

(** X17. The loop of [update_play_count] polls on its first turn, and any
    two successive polls are at least 900 seconds apart by the clock
    readings of their turns, however often the loop wakes in between. *)
Theorem turns_spaced (feed : list (aware * (string → option string)))
    (tracked0 : list (string * song_state)) :
  let st := turns feed (mk_loop None tracked0 []) in
  (∀ t fetch rest, feed = (t, fetch) :: rest → head (log st) = Some t) ∧
  last_update_time st = last (log st) ∧
  ∀ (i : nat) a b, log st !! i = Some a → log st !! S i = Some b →
    900 * 1000000 <= aware_sub b a.
Proof.
  intros st.
  assert (Hinv : ∀ feed s,
    last_update_time s = last (log s) →
    (∀ (i : nat) a b, log s !! i = Some a → log s !! S i = Some b →
       900 * 1000000 <= aware_sub b a) →
    log s `prefix_of` log (turns feed s) ∧
    last_update_time (turns feed s) = last (log (turns feed s)) ∧
    (∀ (i : nat) a b, log (turns feed s) !! i = Some a →
       log (turns feed s) !! S i = Some b → 900 * 1000000 <= aware_sub b a)).
  { clear. induction feed as [|[t fetch] feed IH]; intros s Hl Hs; simpl.
    - split; [done|]. now split.
    - destruct (turn_log fetch t s Hl Hs) as [Hl' Hs'].
      destruct (IH _ Hl' Hs') as (Hp & Hl'' & Hs'').
      split; [|now split].
      etrans; [|exact Hp]. unfold turn.
      destruct (due _ _); [now apply prefix_app_r|done]. }
  split; [|unfold st; apply Hinv; [reflexivity|intros i a b Ha; simpl in Ha; now rewrite lookup_nil in Ha]].
  intros t fetch rest ->. unfold st. simpl.
  destruct (Hinv rest (turn fetch t (mk_loop None tracked0 [])))
    as ([k Ek] & _ & _).
  - reflexivity.
  - simpl. intros [|i] a b Ha Hb; simpl in Ha, Hb; discriminate.
  - rewrite Ek. reflexivity.
Qed.

End Poller.

(** ** The table of changes *)

Section Changes.
Context `{PyLib}.
Import AppDisplay.

Lemma change_of_Some (p c : entry) (vp vc : Z) :
  int_value p = Some vp → int_value c = Some vc →
  change_of p c = Some (c, change_str (vc - vp)).
Proof. unfold change_of, int_value. now intros -> ->. Qed.

(** The changes of neighbours, on a series of integer play counts. *)
Lemma changes_of_neighbours (l rest : list entry) :
  Forall (λ e, is_Some (int_value e)) l →
  Forall (λ e, is_Some (int_value e)) rest →
  ∃ changes,
    mapM (λ pc, change_of pc.1 pc.2) (zip l rest) = Some changes ∧
    (length rest <= length l → changes.*1 = rest)%nat ∧
    ∀ (i : nat) p c vp vc,
      l !! i = Some p → rest !! i = Some c →
      int_value p = Some vp → int_value c = Some vc →
      changes !! i = Some (c, change_str (vc - vp)).
Proof.
  intros Hl. revert rest.
  induction Hl as [|p l [vp Ep] Hl IH]; intros rest Hrest.
  - exists []. split; [reflexivity|]. split.
    + destruct rest; simpl; [reflexivity|lia].
    + intros i ? ? ? ? Hi. now rewrite lookup_nil in Hi.
  - destruct Hrest as [|c rest [vc Ec] Hrest].
    + exists []. split; [reflexivity|]. split; [reflexivity|].
      intros i ? ? ? ? _ Hi. now rewrite lookup_nil in Hi.
    + destruct (IH rest Hrest) as (changes & Em & Hfst & Hlk).
      exists ((c, change_str (vc - vp)) :: changes).
      split; [|split].
      * cbn [zip zip_with mapM fst snd].
        rewrite (change_of_Some p c vp vc Ep Ec). cbn [mbind option_bind].
        fold (zip l rest). now rewrite Em.
      * intros Hlen. simpl in Hlen. rewrite fmap_cons, Hfst by lia. reflexivity.
      * intros [|i] p' c' vp' vc' Hp Hc Evp Evc; simpl in Hp, Hc.
        -- injection Hp as <-. injection Hc as <-.
           rewrite Ep in Evp. rewrite Ec in Evc.
           injection Evp as <-. injection Evc as <-. reflexivity.
        -- simpl. eauto.
Qed.

(** X18. On a series of integer play counts [calculate_changes] does not
    raise and returns the samples in reverse order, each with the change
    from the sample stored before it, written with its sign; the first
    stored sample comes last and carries ["--"]. *)
Theorem calculate_changes_reversed (entries : list entry) :
  Forall (λ e, is_Some (int_value e)) entries →
  ∃ out,
    calculate_changes entries = Some out ∧
    out.*1 = reverse entries ∧
    (∀ first, head entries = Some first → last out = Some (first, "--")) ∧
    ∀ (i : nat) p c vp vc,
      entries !! i = Some p → entries !! S i = Some c →
      int_value p = Some vp → int_value c = Some vc →
      out !! (length entries - S (S i))%nat = Some (c, change_str (vc - vp)).
Proof.
  intros Hall. unfold calculate_changes.
  destruct entries as [|first rest]; [exists []; repeat split; try done;
    intros i ? ? ? ? Hi; now rewrite lookup_nil in Hi|].
  pose proof Hall as Hall'. apply Forall_cons in Hall' as [_ Hrest].
  destruct (changes_of_neighbours (first :: rest) rest Hall Hrest)
    as (changes & Em & Hfst & Hlk).
  rewrite Em. cbn [mbind option_bind].
  exists (reverse ((first, "--") :: changes)).
  assert (Hlen : length changes = length rest).
  { pose proof (f_equal length (Hfst ltac:(simpl; lia))) as Hl.
    now rewrite length_fmap in Hl. }
  split; [reflexivity|]. split; [|split].
  - rewrite fmap_reverse, fmap_cons, Hfst by (simpl; lia). reflexivity.
  - intros f [= <-]. rewrite last_reverse. reflexivity.
  - intros i p c vp vc Hp Hc Evp Evc. simpl in Hc.
    pose proof (Hlk i p c vp vc Hp Hc Evp Evc) as Hi.
    pose proof (lookup_lt_Some _ _ _ Hi) as Hlt.
    rewrite reverse_lookup by (simpl; lia).
    simpl length. rewrite Hlen.
    replace (S (length rest) - S (S (length rest) - S (S i)))%nat with (S i) by lia.
    exact Hi.
Qed.

End Changes.

(** ** The timestamp text *)

Section TimestampText.
Context `{PyLib}.
Local Arguments String.append !s1 s2 : simpl nomatch.

Lemma digit_plain (z : Z) :
  Ascii.eqb " " (digit z) = false ∧ Ascii.eqb "I" (digit z) = false ∧
  isspace (digit z) = false.
Proof.
  unfold digit.
  assert (Hn : (Z.to_nat (z `mod` 10) < 10)%nat).
  { pose proof (Z.mod_pos_bound z 10 ltac:(lia)). lia. }
  destruct (Z.to_nat (z `mod` 10)) as [|[|[|[|[|[|[|[|[|[|n]]]]]]]]]];
    try (repeat split; reflexivity). lia.
Qed.

Lemma eqb_space_digit (z : Z) : Ascii.eqb " " (digit z) = false.
Proof. apply digit_plain. Qed.

Lemma eqb_I_digit (z : Z) : Ascii.eqb "I" (digit z) = false.
Proof. apply digit_plain. Qed.

Lemma isspace_digit (z : Z) : isspace (digit z) = false.
Proof. apply digit_plain. Qed.

Lemma replace_ist_written (t : datetime) :
  replace " IST" "" (strftime_ist t) = civil_text t.
Proof.
  unfold strftime_ist, civil_text, pad4, pad2, replace.
  cbn [String.append replace_from startswith String.length Nat.pred].
  rewrite !eqb_space_digit, !eqb_I_digit.
  reflexivity.
Qed.

Lemma strip_civil_text (t : datetime) : strip (civil_text t) = civil_text t.
Proof.
  unfold civil_text, pad4, pad2, strip.
  cbn [String.append lstrip]. rewrite !isspace_digit.
  cbn [rstrip]. rewrite !isspace_digit. reflexivity.
Qed.

(** X19. The timestamp [update_song] writes is read back through its
    19 characters [YYYY-MM-DD HH:MM:SS]: removing [" IST"] and stripping
    leave exactly that text for [strptime], whatever the clock reading. *)
Theorem written_timestamp_text (t : datetime) :
  parse_civil (strftime_ist t) = strptime (civil_text t) ∧
  String.length (civil_text t) = 19%nat.
Proof.
  unfold parse_civil. rewrite replace_ist_written, strip_civil_text.
  split; reflexivity.
Qed.

End TimestampText.

(** ** One sample an hour *)

Section Hourly.
Context `{PyLib}.
Import UpdateCounts.

Lemma hourly_snoc (data : list entry) (e : entry) (now_dt : datetime) :
  hourly data →
  should_append_hourly data now_dt = true →
  (∀ t, civil_time e = Some t → hour_bucket t = hour_bucket now_dt) →
  hourly (data ++ [e]).
Proof.
  intros Hh Ha He i a b ta tb Hia Hib Eta Etb.
  destruct (decide (S i < length data)%nat) as [Hlt|Hge].
  - rewrite lookup_app_l in Hia by lia. rewrite lookup_app_l in Hib by lia. eauto.
  - assert (Hi : S i = length data).
    { apply lookup_lt_Some in Hib. rewrite length_app in Hib. simpl in Hib. lia. }
    rewrite lookup_app_l in Hia by lia.
    rewrite lookup_app_r in Hib by lia.
    replace (S i - length data)%nat with 0%nat in Hib by lia.
    simpl in Hib. injection Hib as <-.
    assert (El : last data = Some a) by (rewrite last_lookup, <- Hi; exact Hia).
    unfold should_append_hourly in Ha. rewrite El in Ha.
    unfold civil_time in Eta. rewrite Eta in Ha.
    apply negb_true_iff, bool_decide_eq_false in Ha.
    rewrite (He tb Etb). congruence.
Qed.

(** X20. Fed to [update_song], a series in which no two neighbours lie in
    one calendar hour keeps that shape, provided the timestamps written
    read back in the hour of their clock reading. *)
Theorem run_updates_hourly (meta : song_meta) (feed : list (option Z * aware))
    (fs : files) :
  Forall (λ step, ∀ t, parse_civil (strftime_ist (naive step.2)) = Some t →
                       hour_bucket t = hour_bucket (naive step.2)) feed →
  hourly (load_json (json_file meta) fs) →
  hourly (load_json (json_file meta) (run_updates meta feed fs)).
Proof.
  intros Hrt. revert fs.
  induction Hrt as [|[fetched now] feed Hstep Hrt IH]; intros fs Hh; simpl;
    [exact Hh|].
  apply IH.
  destruct (update_song_cases meta fetched now fs) as [->|(c & _ & _ & A & ->)];
    [exact Hh|].
  simpl. rewrite load_after_save.
  eapply hourly_snoc; [exact Hh | exact A | exact Hstep].
Qed.

End Hourly.

Section LaterExamples.
Import UpdateCounts App AppDisplay Samples RefLib.

(** Three polls, the second with the count of the first: two entries. *)
Example run_ingest_no_repeat_run :
  play_count <$>
    song_entries
      (run_ingest [(Some "500", at_ 10 0 0); (Some "500", at_ 10 15 0);
                   (Some "501", at_ 10 30 0)]
         (mk_song [] []))
  = ["500"; "501"].
Proof. vm_compute. reflexivity. Qed.

Lemma calculate_changes_reversed_witness :
  ∃ out,
    calculate_changes [s_0900; s_1000; s_1110] = Some out ∧
    out.*1 = [s_1110; s_1000; s_0900].
Proof.
  destruct (calculate_changes_reversed [s_0900; s_1000; s_1110])
    as (out & E & Hfst & _).
  - repeat constructor; eexists; vm_compute; reflexivity.
  - exists out. split; [exact E | exact Hfst].
Defined.

Lemma run_updates_hourly_witness :
  hourly
    (load_json (json_file meta0)
       (run_updates meta0
          [(Some 500, at_ 10 0 0); (Some 510, at_ 10 5 0); (Some 620, at_ 11 10 0)]
          ∅)).
Proof.
  apply (run_updates_hourly meta0
           [(Some 500, at_ 10 0 0); (Some 510, at_ 10 5 0); (Some 620, at_ 11 10 0)]
           ∅).
  - repeat constructor; intros t E; vm_compute in E; injection E as <-;
      reflexivity.
  - intros i a b ta tb Ha. vm_compute in Ha. discriminate Ha.
Defined.

End LaterExamples.

(** ** The gap filter and the order of its input *)

Section GapFilterOrder.
Context `{PyLib}.
Import Convert GapSpec.

Lemma lex_cmp_Eq (a b : list Z) : lex_cmp a b = Eq → a = b.
Proof.
  revert b. induction a as [|x a IH]; intros [|y b]; simpl; try congruence.
  destruct (Z.compare_spec x y); try discriminate.
  intros E. subst. f_equal. now apply IH.
Qed.

Lemma dt_fields_inj (a b : datetime) : dt_fields a = dt_fields b → a = b.
Proof. destruct a, b. unfold dt_fields. simpl. now intros [= -> -> -> -> -> -> ->]. Qed.

Lemma lex_cmp_opp (a b : list Z) : lex_cmp b a = CompOpp (lex_cmp a b).
Proof.
  revert b. induction a as [|x a IH]; intros [|y b]; simpl; try reflexivity.
  rewrite (Z.compare_antisym x y).
  destruct (x ?= y); simpl; auto.
Qed.

Lemma key_le_antisym (x y : datetime * entry) : key_le x y → key_le y x → x.1 = y.1.
Proof.
  unfold key_le. rewrite !dt_ltb_false. intros Hxy Hyx.
  apply dt_fields_inj, lex_cmp_Eq.
  rewrite (lex_cmp_opp (dt_fields x.1) (dt_fields y.1)) in Hxy.
  destruct (lex_cmp (dt_fields x.1) (dt_fields y.1)); simpl in Hxy; congruence.
Qed.

(** A decorated list is determined by its samples. *)
Lemma decorated_fmap (srt : list (datetime * entry)) :
  Forall decorated srt →
  srt = (λ e, (default (mk_datetime 0 0 0 0 0 0 0) (civil_time e), e)) <$> srt.*2.
Proof.
  induction 1 as [|[k e] l Hd _ IH]; [reflexivity|].
  rewrite !fmap_cons. simpl. unfold decorated in Hd. simpl in Hd.
  rewrite Hd. simpl. now rewrite <- IH.
Qed.

(** X21. When no two samples of the series fall on the same time,
    [filter_hour_gaps] does not depend on the order in which the samples
    are given. *)
Theorem filter_hour_gaps_order (gap_minutes : Z) (entries1 entries2 : list entry) :
  entries1 ≡ₚ entries2 →
  Forall (λ e, is_Some (civil_time e)) entries1 →
  (∀ a b, a ∈ entries1 → b ∈ entries1 → civil_time a = civil_time b → a = b) →
  filter_hour_gaps entries1 gap_minutes = filter_hour_gaps entries2 gap_minutes.
Proof.
  intros Hperm Hp1 Hdist.
  assert (Hp2 : Forall (λ e, is_Some (civil_time e)) entries2) by now rewrite <- Hperm.
  destruct (filter_hour_gaps_view gap_minutes entries1 Hp1)
    as (srt1 & (Hperm1 & Hd1 & Hs1) & E1).
  destruct (filter_hour_gaps_view gap_minutes entries2 Hp2)
    as (srt2 & (Hperm2 & Hd2 & Hs2) & E2).
  assert (Hsame : srt1 = srt2).
  { apply (StronglySorted_unique_strong key_le); try assumption.
    - intros x y Hx Hy Hxy Hyx.
      pose proof (key_le_antisym x y Hxy Hyx) as Ek.
      pose proof (proj1 (Forall_forall _ _) Hd1 x Hx) as Dx.
      pose proof (proj1 (Forall_forall _ _) Hd2 y Hy) as Dy.
      unfold decorated in Dx, Dy.
      assert (x.2 = y.2) as E.
      { apply Hdist.
        - rewrite <- Hperm1. now apply list_elem_of_fmap_2.
        - rewrite Hperm, <- Hperm2. now apply list_elem_of_fmap_2.
        - congruence. }
      destruct x, y. simpl in *. congruence.
    - rewrite (decorated_fmap srt1 Hd1), (decorated_fmap srt2 Hd2).
      apply fmap_Permutation. now rewrite Hperm1, Hperm2. }
  now rewrite E1, E2, Hsame.
Qed.

End GapFilterOrder.

Section GapFilterOrderExamples.
Import Convert Samples RefLib.

Lemma filter_hour_gaps_order_witness :
  filter_hour_gaps [s_1110; s_0900; s_1000] 60
    = filter_hour_gaps [s_0900; s_1000; s_1110] 60.
Proof.
  apply (filter_hour_gaps_order 60 [s_1110; s_0900; s_1000] [s_0900; s_1000; s_1110]).
  - change ([s_1110] ++ [s_0900; s_1000] ≡ₚ [s_0900; s_1000] ++ [s_1110]).
    apply Permutation_app_comm.
  - repeat constructor; eexists; vm_compute; reflexivity.
  - intros a b Ha Hb.
    repeat (apply elem_of_cons in Ha as [->|Ha]);
      try (now apply elem_of_nil in Ha);
      repeat (apply elem_of_cons in Hb as [->|Hb]);
      try (now apply elem_of_nil in Hb);
      intros E; try reflexivity; vm_compute in E; discriminate E.
Defined.

End GapFilterOrderExamples.

(** ** The scraper of [app.py] *)

Section AppScraper.
Import PyText AppScrape.
Context `{TextLib}.

Lemma digits_before_text (sep text s : str) :
  digits_before sep text = Some s → digit_text s.
Proof.
  unfold digits_before. destruct (contains sep text); [|discriminate].
  destruct (digits_of (strip (before sep text))) as [|c d] eqn:E; [discriminate|].
  intros [= <-]. split; [discriminate|].
  rewrite <- E. apply digits_of_isdigit.
Qed.

Lemma first_plays_text (texts : list str) (s : str) :
  first_plays texts = Some s → digit_text s.
Proof.
  induction texts as [|t rest IH]; simpl; [discriminate|].
  destruct (contains (codes "Plays") t); [apply digits_before_text | exact IH].
Qed.

Lemma fetch_play_count_text (response : option page) (s : str) :
  fetch_play_count response = Some s → digit_text s.
Proof.
  unfold fetch_play_count, scan. destruct response as [pg|]; [|discriminate].
  simpl.
  destruct (play_info pg) as [t1|]; simpl.
  - destruct (digits_before (codes "Play") t1) eqn:E1;
      [intros [= <-]; eapply digits_before_text; eauto|].
    destruct (album_info pg) as [t2|]; simpl.
    + destruct (digits_before (codes "Plays") t2) eqn:E2;
        [intros [= <-]; eapply digits_before_text; eauto|].
      apply first_plays_text.
    + apply first_plays_text.
  - destruct (album_info pg) as [t2|]; simpl.
    + destruct (digits_before (codes "Plays") t2) eqn:E2;
        [intros [= <-]; eapply digits_before_text; eauto|].
      apply first_plays_text.
    + apply first_plays_text.
Qed.

(** X22. What [fetch_play_count] of [app.py] returns is [None] or a
    non-empty text of characters that [str.isdigit] accepts, whatever
    the page: never the empty text, and never a text with a sign, a
    separator or a space. *)
Theorem app_fetch_play_count_digits (response : option page) :
  match fetch_play_count response with
  | None => True
  | Some play_count => digit_text play_count
  end.
Proof.
  destruct (fetch_play_count response) as [s|] eqn:E; [|exact I].
  now apply fetch_play_count_text in E.
Qed.

End AppScraper.

Section AppScraperExamples.
Import PyText AppScrape RefText.

(** The separators are dropped and the first string with ['Plays']
    decides; a superscript is kept, so that the text returned is not
    always one [int] accepts. *)
Example app_fetch_play_count_run :
  fetch_play_count (Some (mk_page (Some (codes "1,234 Plays")) None []))
    = Some (codes "1234") ∧
  fetch_play_count
    (Some (mk_page None None [codes "Top"; codes "1,301 Plays"; codes "9 Plays"]))
    = Some (codes "1301") ∧
  fetch_play_count (Some (mk_page None None [codes "Plays"; codes "9 Plays"]))
    = None ∧
  fetch_play_count (Some (mk_page (Some ([49; 178; 51]%N ++ codes " Plays")) None []))
    = Some [49; 178; 51]%N ∧
  int_of_digits [49; 178; 51]%N = None.
Proof. vm_compute. auto 6. Qed.

End AppScraperExamples.

(** ** The look-up of the count of 24 hours ago in [app.py] *)

Section Home.
Context `{PyLib}.
Import AppHome.

Lemma entry_diff_distance (zone_utcoff : Z) (current_time : aware) (t : datetime) :
  entry_diff zone_utcoff current_time t
    = binary64 (TimeSpec.distance current_time 24 (mk_aware t zone_utcoff)) 1000000.
Proof.
  unfold entry_diff, float_seconds. rewrite Qabs_true_divide by lia.
  f_equal. unfold TimeSpec.distance. f_equal.
  unfold aware_sub, dt_sub, hours_delta, mk_timedelta, TimeSpec.instant.
  cbn [naive utcoff]. lia.
Qed.

Lemma closest_inv_step (zone_utcoff : Z) (current_time : aware) (l : list entry)
    (acc acc' : closest_state) (x : entry) :
  closest_inv zone_utcoff current_time l acc →
  closest_step zone_utcoff current_time acc x = Some acc' →
  closest_inv zone_utcoff current_time (l ++ [x]) acc'.
Proof.
  intros [Hp I]. unfold closest_step.
  destruct (entry_civil x) as [tx|] eqn:Ex; [|discriminate]. cbn [mbind option_bind].
  assert (Hp' : Forall (λ e, is_Some (entry_civil e)) (l ++ [x])).
  { apply Forall_app. split; [exact Hp|]. constructor; [eauto|constructor]. }
  destruct acc as [[[e v]|] [m|]]; try contradiction; cbn [snd].
  - destruct I as (l1 & l2 & t & -> & Et & Ev & -> & Hb & Ha).
    destruct (UpdateCounts.below _ _) eqn:B.
    + apply below_spec in B.
      destruct (py_int (play_count x)) as [vx|] eqn:Evx; [|discriminate].
      intros [= <-]. split; [exact Hp'|].
      exists (l1 ++ e :: l2), [], tx. repeat split; auto.
      * intros e' t' Hin Et'.
        apply elem_of_app in Hin as [Hin|Hin].
        -- eapply Qlt_trans; [exact B | eauto].
        -- apply elem_of_cons in Hin as [->|Hin].
           ++ rewrite Et in Et'. now injection Et' as <-.
           ++ eapply Qlt_le_trans; [exact B | eauto].
      * intros e' t' Hin. now apply elem_of_nil in Hin.
    + apply below_false in B. intros [= <-]. split; [exact Hp'|].
      exists l1, (l2 ++ [x]), t. repeat split; auto.
      * now rewrite <- app_assoc.
      * intros e' t' Hin Et'.
        apply elem_of_app in Hin as [Hin|Hin]; [eauto|].
        apply list_elem_of_singleton in Hin as ->.
        rewrite Ex in Et'. now injection Et' as <-.
  - subst l. cbn [UpdateCounts.below].
    destruct (py_int (play_count x)) as [vx|] eqn:Evx; [|discriminate].
    intros [= <-]. split; [exact Hp'|].
    exists [], [], tx. repeat split; auto.
    + intros e' t' Hin. now apply elem_of_nil in Hin.
    + intros e' t' Hin. now apply elem_of_nil in Hin.
Qed.

Lemma closest_inv_loop (zone_utcoff : Z) (current_time : aware)
    (pre l : list entry) (acc r : closest_state) :
  closest_inv zone_utcoff current_time pre acc →
  closest_loop zone_utcoff current_time l acc = Some r →
  closest_inv zone_utcoff current_time (pre ++ l) r.
Proof.
  revert pre acc. induction l as [|x l IH]; intros pre acc I; cbn [closest_loop].
  - intros [= <-]. now rewrite app_nil_r.
  - destruct (closest_step zone_utcoff current_time acc x) as [acc'|] eqn:Es;
      [|discriminate].
    cbn [mbind option_bind]. intros El.
    replace (pre ++ x :: l) with ((pre ++ [x]) ++ l) by now rewrite <- app_assoc.
    eapply IH; [|exact El]. eapply closest_inv_step; eauto.
Qed.

(** The loop completes when every timestamp parses and every play count
    is an integer. *)
Lemma closest_loop_total (zone_utcoff : Z) (current_time : aware)
    (l : list entry) (acc : closest_state) :
  Forall (λ e, is_Some (entry_civil e) ∧ is_Some (int_value e)) l →
  is_Some (closest_loop zone_utcoff current_time l acc).
Proof.
  intros Hl. revert acc. induction Hl as [|x l [[t Et] [v Ev]] _ IH]; intros acc;
    cbn [closest_loop]; [eauto|].
  unfold closest_step. rewrite Et. cbn [mbind option_bind].
  unfold int_value in Ev. rewrite Ev. cbn [mbind option_bind].
  destruct (UpdateCounts.below _ _); cbn [mbind option_bind]; apply IH.
Qed.

(** X24. The look-up of [home] for the count of 24 hours ago.  It
    completes on a series whose timestamps all parse and whose play
    counts are all integers.  When it completes on a non-empty series,
    every timestamp parses and its answer is the first entry, in stored
    order, whose distance to [current_time] minus 24 hours is least, with
    that entry's play count as an integer; the distance is the float of
    seconds that Python compares and is taken from the entry's civil
    time read at the UTC offset of the zone object that
    [replace(tzinfo=ist_tz)] attaches.  On the empty series the answer is
    [None]. *)
Theorem closest_24h_first_nearest (zone_utcoff : Z) (current_time : aware)
    (entries : list entry) :
  let secs (t : datetime) :=
    binary64 (TimeSpec.distance current_time 24 (mk_aware t zone_utcoff)) 1000000 in
  (Forall (λ e, is_Some (entry_civil e) ∧ is_Some (int_value e)) entries →
   is_Some (closest_24h zone_utcoff current_time entries)) ∧
  match closest_24h zone_utcoff current_time entries with
  | None => True
  | Some None => entries = []
  | Some (Some (e, v)) =>
      Forall (λ e, is_Some (entry_civil e)) entries ∧
      int_value e = Some v ∧
      ∃ l1 l2 t,
        entries = l1 ++ e :: l2 ∧ entry_civil e = Some t ∧
        (∀ e' t', e' ∈ l1 → entry_civil e' = Some t' → (secs t < secs t')%Q) ∧
        (∀ e' t', e' ∈ l2 → entry_civil e' = Some t' → (secs t <= secs t')%Q)
  end.
Proof.
  intros secs. unfold closest_24h. split.
  - intros Hl.
    destruct (closest_loop_total zone_utcoff current_time entries (None, None) Hl)
      as [r ->]. cbn. eauto.
  - destruct (closest_loop zone_utcoff current_time entries (None, None))
      as [r|] eqn:El; [|exact I].
    assert (closest_inv zone_utcoff current_time [] (None, None)) as I0
      by (split; [constructor | reflexivity]).
    pose proof (closest_inv_loop zone_utcoff current_time [] entries (None, None) r
                  I0 El) as [Hp I].
    cbn [app] in Hp, I. cbn [fmap option_fmap option_map].
    destruct r as [[[e v]|] [m|]]; cbn [fst]; try contradiction; [|exact I].
    destruct I as (l1 & l2 & t & E & Et & Ev & -> & Hb & Ha).
    split; [exact Hp|]. split; [exact Ev|].
    exists l1, l2, t. split; [exact E|]. split; [exact Et|]. split.
    + intros e' t' Hin Et'. specialize (Hb e' t' Hin Et').
      now rewrite !entry_diff_distance in Hb.
    + intros e' t' Hin Et'. specialize (Ha e' t' Hin Et').
      now rewrite !entry_diff_distance in Ha.
Qed.

End Home.

Section HomeExamples.
Import AppHome Samples RefLib.

(** Read at 10:05 of the next day, with a zone object whose own offset is
    the zone's local mean time of +05:53 while the clock runs at +05:30:
    the sample of 10:30 is taken for the one closest to 24 hours ago,
    though the sample of 10:00 is five minutes from that time and the
    other twenty-five. *)
Example closest_24h_zone_offset :
  closest_24h 21180 (mk_aware (mk_datetime 2024 1 2 10 5 0 0) 19800)
    [s_1000; mk_entry "2024-01-01 10:30:00 IST" "510"]
    = Some (Some (mk_entry "2024-01-01 10:30:00 IST" "510", 510)) ∧
  closest_24h 19800 (mk_aware (mk_datetime 2024 1 2 10 5 0 0) 19800)
    [s_1000; mk_entry "2024-01-01 10:30:00 IST" "510"]
    = Some (Some (s_1000, 500)) ∧
  closest_24h 19800 (mk_aware (mk_datetime 2024 1 2 10 5 0 0) 19800)
    [s_1000; s_bad_time] = None.
Proof. vm_compute. auto. Qed.

End HomeExamples.
